(** * F1 Telemetry Analyzer: lap registry contract, sector display and
      lap analysis engine.

    The development embeds
    - [contracts/contracts/F1TelemetryRegistry.sol] (module [Registry]),
    - the sector banner of the [TelemetryCharts] component (module [Charts]),
    - [formatLapTime] of [lib/web3.ts] (module [Web3]),
    - the sector breakdown of [LapTimeComparison] (module [Comparison]),
    - [generateInsights] of the [AIInsights] component (module [Insights]),
    and, for the backend analysis engine whose sources are not part of the
    tree, a model written from the specification (module [Core]). *)

From Stdlib Require Import ZArith QArith Qabs Lqa Lia Sorted Ascii.
From stdpp Require Import base option list gmap strings pretty sorting.

#[local] Open Scope Z_scope.

(** ** Outcome of a contract call *)

(** A Solidity call either returns, reverts through a failed [require]
    (with its message), or panics (checked arithmetic overflow 0x11,
    array index out of bounds 0x32). *)
Inductive outcome (A : Type) : Type :=
| Ok (a : A)
| Revert (msg : string)
| Panic (code : Z).
Arguments Ok {A} a.
Arguments Revert {A} msg.
Arguments Panic {A} code.

Definition obind {A B} (m : outcome A) (k : A -> outcome B) : outcome B :=
  match m with
  | Ok a => k a
  | Revert msg => Revert msg
  | Panic c => Panic c
  end.

Declare Scope sol_scope.
Delimit Scope sol_scope with sol.
Notation "x <~ m ;; k" := (obind m (fun x => k))
  (at level 100, m at next level, right associativity) : sol_scope.
Notation "'require' b 'else' msg ;; k" :=
  (if b then k else Revert msg)
  (at level 100, b at level 0, msg at level 0, right associativity) : sol_scope.

Module Registry.

#[local] Open Scope sol_scope.

(** *** uint256 arithmetic (Solidity ^0.8: checked) *)

Definition uint256_max : Z := 2 ^ 256 - 1.
Definition uint8_max : Z := 255.

Definition is_uint256 (x : Z) : Prop := 0 <= x <= uint256_max.
Definition is_uint8 (x : Z) : Prop := 0 <= x <= uint8_max.

Definition checked_add (a b : Z) : outcome Z :=
  if a + b <=? uint256_max then Ok (a + b) else Panic 17.

Definition checked_mul (a b : Z) : outcome Z :=
  if a * b <=? uint256_max then Ok (a * b) else Panic 17.

(** *** Storage layout *)

Record LapRecord := mkLapRecord {
  lapNumber : Z;
  lapTime : Z;
  ipfsHash : string;
  performanceScore : Z;
  sectorTimes : Z * Z * Z;
  recorder : Z;
  timestamp : Z;
  exists_ : bool
}.

(** The value a mapping yields at a key that was never written. *)
Definition zeroRecord : LapRecord :=
  mkLapRecord 0 0 "" 0 (0, 0, 0) 0 0 false.

Record State := mkState {
  laps : gmap Z LapRecord;
  lapNumbers : list Z;
  totalLaps : Z;
  owner : Z
}.

(** [laps[n]] *)
Definition laps_at (s : State) (n : Z) : LapRecord :=
  default zeroRecord (laps s !! n).

(** [msg.sender] and [block.timestamp] *)
Record Env := mkEnv { msg_sender : Z; block_timestamp : Z }.

Inductive Event :=
| LapRecorded (lapNo lapT : Z) (hash : string) (score : Z) (rec ts : Z)
| NewFastestLap (lapNo lapT : Z) (rec : Z).

(** [constructor()] *)
Definition constructor (e : Env) : State :=
  mkState ∅ [] 0 (msg_sender e).

(** *** getFastestLapTime *)

(** The loop [for (i = 0; i < totalLaps; i++)], reading
    [laps[lapNumbers[i]].lapTime]; [n] iterations remain from index [i]. *)
Fixpoint fastest_loop (s : State) (n i : nat) (fastest : Z) : outcome Z :=
  match n with
  | O => Ok fastest
  | S n' =>
      match lapNumbers s !! i with
      | None => Panic 50
      | Some k =>
          let t := lapTime (laps_at s k) in
          fastest_loop s n' (S i) (if t <? fastest then t else fastest)
      end
  end.

Definition getFastestLapTime (s : State) : outcome Z :=
  if totalLaps s =? 0 then Ok uint256_max
  else fastest_loop s (Z.to_nat (totalLaps s)) 0 uint256_max.

(** *** recordLap *)

Record LapArgs := mkLapArgs {
  a_lapNumber : Z;
  a_lapTime : Z;
  a_ipfsHash : string;
  a_performanceScore : Z;
  a_sectorTimes : Z * Z * Z
}.

Definition wf_args (a : LapArgs) : Prop :=
  is_uint256 (a_lapNumber a) /\ is_uint256 (a_lapTime a) /\
  is_uint8 (a_performanceScore a) /\
  let '(s0, s1, s2) := a_sectorTimes a in
  is_uint256 s0 /\ is_uint256 s1 /\ is_uint256 s2.

Definition recordLap (e : Env) (a : LapArgs) (s : State)
  : outcome (State * list Event) :=
  (* modifier lapNotExists *)
  require (negb (exists_ (laps_at s (a_lapNumber a)))) else "Lap already recorded" ;;
  require (0 <? a_lapTime a) else "Lap time must be greater than 0" ;;
  require (a_performanceScore a <=? 100) else "Performance score must be <= 100" ;;
  require (0 <? Z.of_nat (String.length (a_ipfsHash a))) else "IPFS hash cannot be empty" ;;
  let '(s0, s1, s2) := a_sectorTimes a in
  s01 <~ checked_add s0 s1 ;;
  sectorSum <~ checked_add s01 s2 ;;
  lo <~ checked_mul (a_lapTime a) 99 ;;
  if negb (lo / 100 <=? sectorSum) then Revert "Sector times must sum to lap time"
  else
  hi <~ checked_mul (a_lapTime a) 101 ;;
  require (sectorSum <=? hi / 100) else "Sector times must sum to lap time" ;;
  let r := mkLapRecord (a_lapNumber a) (a_lapTime a) (a_ipfsHash a)
             (a_performanceScore a) (a_sectorTimes a)
             (msg_sender e) (block_timestamp e) true in
  total' <~ checked_add (totalLaps s) 1 ;;
  let s' := mkState (<[a_lapNumber a := r]> (laps s))
              (lapNumbers s ++ [a_lapNumber a]) total' (owner s) in
  let ev := LapRecorded (a_lapNumber a) (a_lapTime a) (a_ipfsHash a)
              (a_performanceScore a) (msg_sender e) (block_timestamp e) in
  fastest <~ getFastestLapTime s' ;;
  if a_lapTime a <=? fastest
  then Ok (s', [ev; NewFastestLap (a_lapNumber a) (a_lapTime a) (msg_sender e)])
  else Ok (s', [ev]).

(** *** getLeaderboard *)

(** Memory arrays: an access outside the bounds panics (0x32). *)
Definition arr_get {A} (l : list A) (i : nat) : outcome A :=
  match l !! i with
  | Some x => Ok x
  | None => Panic 50
  end.

Definition arr_set {A} (l : list A) (i : nat) (x : A) : outcome (list A) :=
  if (i <? length l)%nat then Ok (<[i := x]> l) else Panic 50.

(** [new LapRecord[](n)]: zero-initialised. *)
Definition new_array (n : nat) : list LapRecord := replicate n zeroRecord.

(** [for (i = 0; i < totalLaps; i++) allLaps[i] = laps[lapNumbers[i]];] *)
Fixpoint load_loop (s : State) (n i : nat) (allLaps : list LapRecord)
  : outcome (list LapRecord) :=
  match n with
  | O => Ok allLaps
  | S n' =>
      k <~ arr_get (lapNumbers s) i ;;
      allLaps' <~ arr_set allLaps i (laps_at s k) ;;
      load_loop s n' (S i) allLaps'
  end.

(** [for (j = i + 1; j < totalLaps; j++)
       if (allLaps[j].lapTime < allLaps[minIndex].lapTime) minIndex = j;] *)
Fixpoint min_loop (allLaps : list LapRecord) (n j minIndex : nat) : outcome nat :=
  match n with
  | O => Ok minIndex
  | S n' =>
      aj <~ arr_get allLaps j ;;
      am <~ arr_get allLaps minIndex ;;
      min_loop allLaps n' (S j) (if lapTime aj <? lapTime am then j else minIndex)
  end.

(** The elements of a memory array of structs are references; the swap
    exchanges two references and [leaderboard[i] = allLaps[i]] copies one.
    No struct is written through a reference, so the arrays are modelled
    by the values they point to. *)
Definition swap (allLaps : list LapRecord) (i minIndex : nat)
  : outcome (list LapRecord) :=
  temp <~ arr_get allLaps i ;;
  am <~ arr_get allLaps minIndex ;;
  l1 <~ arr_set allLaps i am ;;
  arr_set l1 minIndex temp.

(** [for (i = 0; i < resultCount; i++) { ... }]: [n] iterations remain. *)
Fixpoint sort_loop (total n i : nat) (allLaps leaderboard : list LapRecord)
  : outcome (list LapRecord) :=
  match n with
  | O => Ok leaderboard
  | S n' =>
      minIndex <~ min_loop allLaps (total - (i + 1)) (i + 1) i ;;
      allLaps' <~ (if (minIndex =? i)%nat then Ok allLaps
                   else swap allLaps i minIndex) ;;
      ai <~ arr_get allLaps' i ;;
      leaderboard' <~ arr_set leaderboard i ai ;;
      sort_loop total n' (S i) allLaps' leaderboard'
  end.

Definition getLeaderboard (s : State) (count : Z) : outcome (list LapRecord) :=
  require ((0 <? count) && (count <=? 50)) else "Count must be between 1 and 50" ;;
  let resultCount := if totalLaps s <? count then totalLaps s else count in
  let leaderboard := new_array (Z.to_nat resultCount) in
  let total := Z.to_nat (totalLaps s) in
  allLaps <~ load_loop s total 0 (new_array total) ;;
  sort_loop total (Z.to_nat resultCount) 0 allLaps leaderboard.

(** *** getFastestLapNumber *)

(** The loop of [getFastestLapNumber]: a strictly smaller lap time replaces
    the pair ([fastestLap], [fastestTime]). *)
Fixpoint fastest_number_loop (s : State) (n i : nat) (fastestLap fastestTime : Z)
  : outcome Z :=
  match n with
  | O => Ok fastestLap
  | S n' =>
      k <~ arr_get (lapNumbers s) i ;;
      if lapTime (laps_at s k) <? fastestTime
      then fastest_number_loop s n' (S i) k (lapTime (laps_at s k))
      else fastest_number_loop s n' (S i) fastestLap fastestTime
  end.

Definition getFastestLapNumber (s : State) : outcome Z :=
  require (0 <? totalLaps s) else "No laps recorded yet" ;;
  fastest_number_loop s (Z.to_nat (totalLaps s)) 0 0 uint256_max.

(** *** getLap, lapRecordExists, getAllLapNumbers *)

Definition getLap (s : State) (n : Z) : outcome LapRecord :=
  (* modifier lapExists *)
  require (exists_ (laps_at s n)) else "Lap does not exist" ;;
  Ok (laps_at s n).

Definition lapRecordExists (s : State) (n : Z) : bool := exists_ (laps_at s n).

Definition getAllLapNumbers (s : State) : list Z := lapNumbers s.

(** *** getMultipleLaps *)

(** [for (i = 0; i < _lapNumbers.length; i++)
       if (laps[_lapNumbers[i]].exists) records[i] = laps[_lapNumbers[i]];] *)
Fixpoint multiple_loop (s : State) (lapNos : list Z) (n i : nat)
    (records : list LapRecord) : outcome (list LapRecord) :=
  match n with
  | O => Ok records
  | S n' =>
      k <~ arr_get lapNos i ;;
      records' <~ (if exists_ (laps_at s k)
                   then k' <~ arr_get lapNos i ;; arr_set records i (laps_at s k')
                   else Ok records) ;;
      multiple_loop s lapNos n' (S i) records'
  end.

Definition getMultipleLaps (s : State) (lapNos : list Z) : outcome (list LapRecord) :=
  multiple_loop s lapNos (length lapNos) 0 (new_array (length lapNos)).

(** *** getAverageLapTime *)

(** [for (i = 0; i < totalLaps; i++) totalTime += laps[lapNumbers[i]].lapTime;] *)
Fixpoint average_loop (s : State) (n i : nat) (totalTime : Z) : outcome Z :=
  match n with
  | O => Ok totalTime
  | S n' =>
      k <~ arr_get (lapNumbers s) i ;;
      totalTime' <~ checked_add totalTime (lapTime (laps_at s k)) ;;
      average_loop s n' (S i) totalTime'
  end.

Definition getAverageLapTime (s : State) : outcome Z :=
  require (0 <? totalLaps s) else "No laps recorded yet" ;;
  totalTime <~ average_loop s (Z.to_nat (totalLaps s)) 0 0 ;;
  Ok (totalTime / totalLaps s).

(** *** getLapsByRecorder *)

(** [for (i = 0; i < totalLaps; i++)
       if (laps[lapNumbers[i]].recorder == _recorder) count++;] *)
Fixpoint recorder_loop (s : State) (who : Z) (n i : nat) (count : Z) : outcome Z :=
  match n with
  | O => Ok count
  | S n' =>
      k <~ arr_get (lapNumbers s) i ;;
      count' <~ (if recorder (laps_at s k) =? who then checked_add count 1
                 else Ok count) ;;
      recorder_loop s who n' (S i) count'
  end.

Definition getLapsByRecorder (s : State) (who : Z) : outcome Z :=
  recorder_loop s who (Z.to_nat (totalLaps s)) 0 0.

(** *** Reachable states *)

Inductive reachable : State -> Prop :=
| reach_deploy e : reachable (constructor e)
| reach_record s e a s' evs :
    reachable s -> wf_args a -> recordLap e a s = Ok (s', evs) -> reachable s'.

Definition sector_sum (r : LapRecord) : Z :=
  let '(s0, s1, s2) := sectorTimes r in s0 + s1 + s2.

Definition record_ok (r : LapRecord) : Prop :=
  0 < lapTime r /\ performanceScore r <= 100 /\ ipfsHash r <> "" /\
  lapTime r * 99 / 100 <= sector_sum r <= lapTime r * 101 / 100.

(** The laps enumerated by [lapNumbers], in recording order. *)
Definition recorded (s : State) : list LapRecord :=
  laps_at s <$> lapNumbers s.

(** State invariant established by the constructor and kept by
    [recordLap]. *)
Record state_inv (s : State) : Prop := {
  inv_total : totalLaps s = Z.of_nat (length (lapNumbers s));
  inv_nodup : NoDup (lapNumbers s);
  inv_listed : forall n, n ∈ lapNumbers s <-> exists_ (laps_at s n) = true;
  inv_ok : forall n r, laps s !! n = Some r -> exists_ r = true -> record_ok r;
  inv_bounded : forall n, lapTime (laps_at s n) * 99 <= uint256_max;
  inv_numbered : forall n, exists_ (laps_at s n) = true -> lapNumber (laps_at s n) = n
}.

(** [later s s']: [s'] is [s] after any number of successful [recordLap]
    transactions, whoever sent them. *)
Inductive later : State -> State -> Prop :=
| later_refl s : later s s
| later_record s s1 e a s2 evs :
    later s s1 -> recordLap e a s1 = Ok (s2, evs) -> later s s2.

(** The sum of the lap times of the laps enumerated by [lapNumbers]. *)
Definition sum_Z (l : list Z) : Z := foldr Z.add 0 l.

Definition total_time (s : State) : Z := sum_Z (lapTime <$> recorded s).

(** The laps of [who] among the enumerated ones. *)
Definition laps_of (who : Z) (l : list LapRecord) : list LapRecord :=
  filter (fun r => recorder r = who) l.

(** What [recordLap] requires of its arguments, besides a fresh lap number. *)
Definition args_ok (a : LapArgs) : Prop :=
  let '(s0, s1, s2) := a_sectorTimes a in
  0 < a_lapTime a /\ a_performanceScore a <= 100 /\ a_ipfsHash a <> "" /\
  s0 + s1 + s2 <= uint256_max /\ a_lapTime a * 101 <= uint256_max /\
  a_lapTime a * 99 / 100 <= s0 + s1 + s2 <= a_lapTime a * 101 / 100.

(** The first [i] cells of [allLaps] are in non-decreasing lap-time order
    and none of them is slower than a cell that comes later. *)
Definition sorted_upto (allLaps : list LapRecord) (i : nat) : Prop :=
  forall a b x y, (a < i)%nat -> (a <= b)%nat ->
    allLaps !! a = Some x -> allLaps !! b = Some y -> lapTime x <= lapTime y.

(** *** A concrete session: deployment, then two laps *)

Definition deployer : Env := mkEnv 1000 1700000000.

Definition lap1 : LapArgs :=
  mkLapArgs 1 88456 "QmTelemetryLap1" 87 (29145, 30523, 28788).

Definition lap2 : LapArgs :=
  mkLapArgs 2 88234 "QmTelemetryLap2" 91 (29100, 30400, 28734).

Definition after (e : Env) (a : LapArgs) (s : State) : State :=
  match recordLap e a s with
  | Ok (s', _) => s'
  | _ => s
  end.

Definition session1 : State := after deployer lap1 (constructor deployer).
Definition session2 : State := after deployer lap2 session1.

End Registry.

(** * Frontend: telemetry types *)

(** [frontend/types/telemetry.ts].  JavaScript numbers are modelled by
    rationals; a lap time that is [null] is [None]. *)
Module Telemetry.

Record TelemetryDataPoint := mkPoint {
  lap_number : Z;
  sector : Z;
  timestamp : Q;
  speed : Q;
  throttle : Q;
  brake : Q;
  steering_angle : Q;
  gear : Z;
  tire_compound : string;
  tire_wear : Q;
  track_temperature : Q;
  lap_time : option Q
}.

Record LapData := mkLapData {
  ld_lap_number : Z;
  data_points : list TelemetryDataPoint;
  total_points : Z
}.

Record LapTimePrediction := mkPrediction {
  predicted_time : Q;
  confidence_interval : Q * Q;
  key_factors : list (string * Q)
}.

End Telemetry.

(** * Frontend: the sector banner of [TelemetryCharts] *)

Module Charts.
Import Telemetry.
#[local] Open Scope Q_scope.

Record SectorSpan := mkSpan { start : Q; end_ : Q }.

(** [Math.max] on two numbers. *)
Definition Math_max (a b : Q) : Q :=
  match a ?= b with
  | Lt => b
  | _ => a
  end.

Definition Math_min (a b : Q) : Q :=
  match b ?= a with
  | Lt => b
  | _ => a
  end.

(** The body of the reducer.  A first point of a sector creates the span
    [{start: t, end: t}]; then [end] is raised to [Math.max(end, t)]. *)
Definition sector_step (acc : gmap Z SectorSpan) (point : TelemetryDataPoint)
  : gmap Z SectorSpan :=
  let info :=
    match acc !! sector point with
    | Some i => i
    | None => mkSpan (timestamp point) (timestamp point)
    end in
  <[sector point := mkSpan (start info) (Math_max (end_ info) (timestamp point))]> acc.

(** What one point of sector [k] does to the entry of [k]. *)
Definition span_extend (o : option SectorSpan) (t : Q) : option SectorSpan :=
  let info := match o with Some i => i | None => mkSpan t t end in
  Some (mkSpan (start info) (Math_max (end_ info) t)).

(** [telemetry.data_points.reduce(..., {})]; [points] is
    [telemetry.data_points]. *)
Definition sectorInfo (points : list TelemetryDataPoint) : gmap Z SectorSpan :=
  fold_left sector_step points ∅.

(** [info ? info.end - info.start : 0] *)
Definition duration (points : list TelemetryDataPoint) (k : Z) : Q :=
  match sectorInfo points !! k with
  | Some info => end_ info - start info
  | None => 0
  end.

(** The three durations shown in the banner. *)
Definition sector_banner (points : list TelemetryDataPoint) : list Q :=
  duration points <$> [1; 2; 3]%Z.

(** **** The segmenter as the specification words it *)

Definition in_sector (k : Z) (points : list TelemetryDataPoint)
  : list TelemetryDataPoint :=
  filter (fun p => sector p = k) points.

Definition max_timestamp (t : Q) (ts : list Q) : Q := fold_left Math_max ts t.
Definition min_timestamp (t : Q) (ts : list Q) : Q := fold_left Math_min ts t.

(** For a sector present in the data, max(timestamp) - min(timestamp) over
    the sector's samples; no entry for a sector without samples. *)
Definition sector_duration_spec (points : list TelemetryDataPoint) (k : Z)
  : option Q :=
  match timestamp <$> in_sector k points with
  | [] => None
  | t :: ts => Some (max_timestamp t ts - min_timestamp t ts)
  end.

Definition timestamp_ordered (points : list TelemetryDataPoint) : Prop :=
  Sorted (fun p q => timestamp p <= timestamp q) points.

(** The samples run through the sectors in order: the sector number never
    decreases along the list. *)
Definition sector_ordered (points : list TelemetryDataPoint) : Prop :=
  Sorted (fun p q => (sector p <= sector q)%Z) points.

(** A short lap: two samples in sector 1, one in sector 2, none in 3. *)
Definition pt (k : Z) (t : Q) : TelemetryDataPoint :=
  mkPoint 12 k t 120.5 85 0 (-15.3) 3 "soft" 25.5 42 None.

Definition short_lap : list TelemetryDataPoint :=
  [pt 1 0; pt 1 29.145; pt 2 29.2].

(** The same sector with its samples out of order. *)
Definition shuffled_lap : list TelemetryDataPoint :=
  [pt 1 5; pt 1 2].

End Charts.

(** * Frontend: [lib/web3.ts] *)

(** [formatLapTime] is applied by [BlockchainVerification] to
    [Number(lapTimeMs)] and to the three sector times read from the
    contract: integral numbers.  On integers of magnitude up to
    [Number.MAX_SAFE_INTEGER] the double arithmetic of [/], [%] and
    [Math.floor] is exact, so the function is modelled on [Z]: [%] is the
    truncating remainder, [Math.floor (x / d)] the floor division. *)
Module Web3.

Definition MAX_SAFE_INTEGER : Z := 2 ^ 53 - 1.

Definition safe_ms (x : Z) : Prop := 0 <= x <= MAX_SAFE_INTEGER.

Fixpoint repeat_char (n : nat) (c : Ascii.ascii) : string :=
  match n with
  | O => ""
  | S n' => String c (repeat_char n' c)
  end.

(** [s.padStart(targetLength, c)] for a one-character filler. *)
Definition padStart (targetLength : nat) (c : Ascii.ascii) (s : string) : string :=
  repeat_char (targetLength - String.length s) c +:+ s.

(** [n.toString()] of an integral number: its decimal digits, with a
    leading minus sign when negative. *)
Definition Number_toString (n : Z) : string := pretty n.

Definition formatLapTime (milliseconds : Z) : string :=
  let minutes := milliseconds / 60000 in
  let seconds := Z.rem milliseconds 60000 / 1000 in
  let ms := Z.rem milliseconds 1000 in
  Number_toString minutes +:+ ":" +:+ padStart 2 "0"%char (Number_toString seconds)
    +:+ "." +:+ padStart 3 "0"%char (Number_toString ms).

(** Reading a field of decimal digits back (leading zeros allowed). *)
Fixpoint decimal_go (s : string) (acc : Z) : option Z :=
  match s with
  | EmptyString => Some acc
  | String c s' =>
      match Ascii.is_nat c with
      | Some d => decimal_go s' (10 * acc + Z.of_nat d)
      | None => None
      end
  end.

Definition decimal (s : string) : option Z :=
  match s with
  | EmptyString => None
  | _ => decimal_go s 0
  end.

(** A zero-padded field of width [w] holds [x]: it has [w] characters and
    reads back as [x]. *)
Definition field_ok (w : nat) (x : Z) : bool :=
  (String.length (padStart w "0"%char (Number_toString x)) =? w)%nat
  && bool_decide (decimal (padStart w "0"%char (Number_toString x)) = Some x).

End Web3.

(** * Frontend: the sector breakdown of [LapTimeComparison] *)

(** [components/LapTimeComparison.tsx].  [analysis.sector_times] is an
    object keyed by sector number. *)
Module Comparison.
#[local] Open Scope Q_scope.

(** Truthiness of a number that is not [NaN]: anything but zero. *)
Definition truthy (x : Q) : bool := negb (Qeq_bool x 0).

(** [Object.values(analysis.sector_times)] *)
Definition Object_values (sector_times : gmap Z Q) : list Q :=
  snd <$> map_to_list sector_times.

(** [Math.max(...values)]; on the empty array JavaScript yields
    [-Infinity], which is [None] here. *)
Definition Math_max_spread (values : list Q) : option Q :=
  match values with
  | [] => None
  | v :: vs => Some (fold_left Charts.Math_max vs v)
  end.

(** One row of the breakdown: the sector, its time, and the width of its
    bar in percent, [(time / Math.max(...)) * 100]. *)
Record SectorRow := mkRow {
  row_sector : Z;
  row_time : Q;
  row_width : option Q
}.

(** The body of [[1, 2, 3].map(sector => ...)]: [null] when [!time]. *)
Definition sector_row (sector_times : gmap Z Q) (sector : Z) : option SectorRow :=
  match sector_times !! sector with
  | Some time =>
      if truthy time
      then Some (mkRow sector time
                   (m ← Math_max_spread (Object_values sector_times);
                    Some (time / m * 100)))
      else None
  | None => None
  end.

(** The rows React renders: [null] entries leave no trace.  (The block is
    rendered for a non-empty object only; an empty one has no row anyway.) *)
Definition sector_breakdown (sector_times : gmap Z Q) : list SectorRow :=
  omap (sector_row sector_times) [1; 2; 3]%Z.

Definition sample_sector_times : gmap Z Q :=
  <[1%Z := 28.5]> (<[2%Z := 31.2]> (<[3%Z := 0]> ∅)).

End Comparison.

(** * Frontend: [AIInsights] *)

(** [components/AIInsights.tsx].  The optional numeric fields of its
    [LapData] are [None] when absent; the two messages that interpolate a
    number keep the number instead of its rendering. *)
Module Insights.
#[local] Open Scope Q_scope.

Record LapData := mkLapData {
  lap_number : Z;
  lap_time : option Q;
  speed : option Q;
  throttle : option Q;
  brake : option Q
}.

Inductive InsightType := type_positive | type_warning | type_suggestion.

Inductive Icon := TrendingUp | TrendingDown | AlertCircle | Lightbulb.

Inductive Message :=
| Text (s : string)
| TopSpeed (speed : Q)            (* `Top speed of ${speed}km/h is competitive. ...` *)
| StrongLap (lapTimeSeconds : Q). (* `${lapTimeSeconds.toFixed(3)}s is strong! ...` *)

Record Insight := mkInsight {
  type : InsightType;
  title : string;
  message : Message;
  icon : Icon
}.

Definition gt (x y : Q) : bool := negb (Qle_bool x y).
Definition lt (x y : Q) : bool := negb (Qle_bool y x).

(** [if (lapData.field)]: the field is present and not zero. *)
Definition truthy (o : option Q) : option Q :=
  match o with
  | Some x => if Qeq_bool x 0 then None else Some x
  | None => None
  end.

(** The objects pushed by [generateInsights]. *)
Definition excellent_top_speed (v : Q) : Insight :=
  mkInsight type_positive "Excellent Top Speed" (TopSpeed v) TrendingUp.

Definition low_top_speed : Insight :=
  mkInsight type_warning "Low Top Speed Detected"
    (Text "Consider reducing downforce for better straight-line performance.")
    TrendingDown.

Definition aggressive_throttle : Insight :=
  mkInsight type_positive "Aggressive Throttle Application"
    (Text "Good confidence in traction zones. Maintain this approach.") TrendingUp.

Definition throttle_optimization : Insight :=
  mkInsight type_suggestion "Throttle Optimization"
    (Text "Room to apply more throttle earlier in corners. Work on traction confidence.")
    Lightbulb.

Definition heavy_braking : Insight :=
  mkInsight type_warning "Heavy Braking Detected"
    (Text "Consider brake point optimization to carry more speed into corners.")
    AlertCircle.

Definition competitive_lap_time (lapTimeSeconds : Q) : Insight :=
  mkInsight type_positive "Competitive Lap Time" (StrongLap lapTimeSeconds) TrendingUp.

Definition lap_time_opportunity : Insight :=
  mkInsight type_suggestion "Lap Time Improvement Opportunity"
    (Text "Analyze sector times to identify areas for improvement.") Lightbulb.

Definition default_insight : Insight :=
  mkInsight type_suggestion "Data Collection Active"
    (Text "Continue recording laps to generate detailed AI insights.") Lightbulb.

Definition generateInsights (lapData : LapData) : list Insight :=
  let insights := [] in
  (* Speed analysis *)
  let insights :=
    match truthy (speed lapData) with
    | Some v =>
        if gt v 280 then insights ++ [excellent_top_speed v]
        else if lt v 240 then insights ++ [low_top_speed]
        else insights
    | None => insights
    end in
  (* Throttle application *)
  let insights :=
    match truthy (throttle lapData) with
    | Some v =>
        if gt v 85 then insights ++ [aggressive_throttle]
        else if lt v 70 then insights ++ [throttle_optimization]
        else insights
    | None => insights
    end in
  (* Braking analysis *)
  let insights :=
    match truthy (brake lapData) with
    | Some v => if gt v 90 then insights ++ [heavy_braking] else insights
    | None => insights
    end in
  (* Lap time analysis *)
  let insights :=
    match truthy (lap_time lapData) with
    | Some t =>
        let lapTimeSeconds := t / 1000 in
        if lt lapTimeSeconds 90 then insights ++ [competitive_lap_time lapTimeSeconds]
        else if gt lapTimeSeconds 95 then insights ++ [lap_time_opportunity]
        else insights
    | None => insights
    end in
  (* Default insight if no specific data *)
  if (length insights =? 0)%nat then insights ++ [default_insight] else insights.

(** What each of the four analyses contributes. *)
Definition speed_insight (d : LapData) : list Insight :=
  match truthy (speed d) with
  | Some v =>
      if gt v 280 then [excellent_top_speed v]
      else if lt v 240 then [low_top_speed] else []
  | None => []
  end.

Definition throttle_insight (d : LapData) : list Insight :=
  match truthy (throttle d) with
  | Some v =>
      if gt v 85 then [aggressive_throttle]
      else if lt v 70 then [throttle_optimization] else []
  | None => []
  end.

Definition brake_insight (d : LapData) : list Insight :=
  match truthy (brake d) with
  | Some v => if gt v 90 then [heavy_braking] else []
  | None => []
  end.

Definition lap_time_insight (d : LapData) : list Insight :=
  match truthy (lap_time d) with
  | Some t =>
      if lt (t / 1000) 90 then [competitive_lap_time (t / 1000)]
      else if gt (t / 1000) 95 then [lap_time_opportunity] else []
  | None => []
  end.

(** A metric that triggers no insight: absent, zero, or inside its band. *)
Definition quiet (lo hi : option Q) (o : option Q) : Prop :=
  match o with
  | None => True
  | Some v =>
      v == 0 \/
      (match lo with Some l => l <= v | None => True end /\
       match hi with Some h => v <= h | None => True end)
  end.

Definition quiet_lap (d : LapData) : Prop :=
  quiet (Some 240) (Some 280) (speed d) /\
  quiet (Some 70) (Some 85) (throttle d) /\
  quiet None (Some 90) (brake d) /\
  quiet (Some 90000) (Some 95000) (lap_time d).

Definition midfield_lap : LapData :=
  mkLapData 7 (Some 92500) (Some 265) (Some 78) (Some 60).

Definition quick_lap : LapData :=
  mkLapData 8 (Some 88456) (Some 312.4) (Some 91) (Some 95).

End Insights.

(** * The lap analysis engine *)

(** The backend analysis service (the Python [ml_service]) is not part of
    the tree; every definition of this module is written from the
    specification, sections 3, 4 and 7. *)
Module Core.
Import Telemetry.
#[local] Open Scope Q_scope.

(** Modelled from the spec: the severity and type enumerations of a
    Mistake (section 3; also [DriverMistake] in the frontend types).  The
    backend schema is not in the tree. *)
Inductive Severity := low | medium | high.

Inductive MistakeType :=
| late_braking
| throttle_inconsistency
| throttle_lift
| tire_degradation
| low_corner_speed.

(** Modelled from the spec: the Mistake record (section 3).  The backend
    schema is not in the tree. *)
Record Mistake := mkMistake {
  m_sector : Z;
  m_type : MistakeType;
  severity : Severity;
  description : string;
  time_lost : Q
}.

(** Modelled from the spec: the error taxonomy (section 7); an invalid
    parameter names its field.  The backend's exceptions are not in the
    tree. *)
Inductive AnalysisError :=
| LapNotFound
| EmptyLapData
| MissingLapTime
| InvalidParameter (field : string).

Inductive result (A : Type) : Type :=
| Done (a : A)
| Failed (e : AnalysisError).
Arguments Done {A} a.
Arguments Failed {A} e.

Definition rbind {A B} (m : result A) (k : A -> result B) : result B :=
  match m with
  | Done a => k a
  | Failed e => Failed e
  end.

(** [Qle_bool] and a strict companion, for the threshold tests. *)
Definition Qlt_bool (a b : Q) : bool := negb (Qle_bool b a).

(** Modelled from the spec: the clamp that closes the Performance Scorer
    (section 4.4); the scorer's code is not in the tree. *)
Definition clamp (lo hi x : Q) : Q :=
  if Qlt_bool x lo then lo else if Qlt_bool hi x then hi else x.

(** **** Performance Scorer *)

(** Modelled from the spec: the severity-weighted penalty added to the flat
    5 points of a mistake (section 4.4: low=+1, medium=+3, high=+6); the
    scorer's code is not in the tree. *)
Definition severity_penalty (s : Severity) : Q :=
  match s with
  | low => 1
  | medium => 3
  | high => 6
  end.

(** Modelled from the spec: [base = 100 - (|delta| / predicted_lap_time x
    100) x 20] (section 4.4); the scorer's code is not in the tree. *)
Definition base_score (actual predicted : Q) : Q :=
  100 - (Qabs (actual - predicted) / predicted * 100) * 20.

(** Modelled from the spec: one mistake costs the flat 5 points plus its
    severity penalty (section 4.4); the scorer's code is not in the tree. *)
Definition penalise (score : Q) (m : Mistake) : Q :=
  score - 5 - severity_penalty (severity m).

(** Modelled from the spec: the Performance Scorer (section 4.4): the base
    score, less the penalty of every mistake in turn, clamped to [0, 100];
    its code is not in the tree. *)
Definition performance_score (actual predicted : Q) (mistakes : list Mistake) : Q :=
  clamp 0 100 (fold_left penalise mistakes (base_score actual predicted)).

(** The penalties in closed form: the sum over the mistakes of
    (5 + severity bonus). *)
Definition total_penalty (mistakes : list Mistake) : Q :=
  foldr (fun m acc => (5 + severity_penalty (severity m)) + acc) 0 mistakes.

(** **** Lap Time Predictor: validation *)

(** Modelled from the spec: the tire compound enumeration (section 3) and
    its reading from the sample's string field.  The backend schema is not
    in the tree. *)
Inductive Compound := Soft | Medium | Hard.

Definition parse_compound (c : string) : option Compound :=
  if decide (c = "soft") then Some Soft
  else if decide (c = "medium") then Some Medium
  else if decide (c = "hard") then Some Hard
  else None.

(** Modelled from the spec: parameter validation (sections 4.2 and 7):
    compound, wear (0-100) and track temperature (0-60) are checked, in
    this order, before anything is computed; the error names the field.
    The predictor's code is not in the tree. *)
Definition validate (compound : string) (wear temp : Q) : result Compound :=
  match parse_compound compound with
  | None => Failed (InvalidParameter "tire_compound")
  | Some c =>
      if negb (Qle_bool 0 wear && Qle_bool wear 100)
      then Failed (InvalidParameter "tire_wear")
      else if negb (Qle_bool 0 temp && Qle_bool temp 60)
      then Failed (InvalidParameter "track_temperature")
      else Done c
  end.

(** **** The tunable components *)

(** Modelled from the spec: the two components whose inner workings the
    specification leaves tunable, as the pure functions it requires them to
    be (sections 5 and 9): the estimate behind the validation, by the
    trained model or the fallback heuristic (section 4.2), and the five
    heuristic passes of the Mistake Detector over the samples and the sector
    map (section 4.3).  Neither is in the tree. *)
Record Engine := mkEngine {
  estimate : Compound -> Q -> Q -> option Q -> LapTimePrediction;
  detect_mistakes : list TelemetryDataPoint -> list (Z * Q) -> list Mistake
}.

(** Modelled from the spec: the Lap Time Predictor (section 4.2): validate,
    then estimate; one result shape whichever path estimates.  Its code is
    not in the tree. *)
Definition predict (eng : Engine) (compound : string) (wear temp : Q)
    (avg_speed : option Q) : result LapTimePrediction :=
  rbind (validate compound wear temp)
        (fun c => Done (estimate eng c wear temp avg_speed)).

(** **** Sector Segmenter *)

(** Modelled from the spec: the backend's Sector Segmenter (section 4.1):
    for each sector present, in order of first appearance, max(timestamp) -
    min(timestamp) among that sector's samples.  Its code is not in the
    tree; the mapping is kept as an insertion-ordered association list. *)
Definition sector_times (samples : list TelemetryDataPoint) : list (Z * Q) :=
  omap (fun k => pair k <$> Charts.sector_duration_spec samples k)
       (remove_dups (sector <$> samples)).

(** **** Lap Analysis Orchestrator *)

(** Modelled from the spec: the feedback sentences (section 4.5): the
    sign-aware summary of the delta, then one sentence per mistake.  The
    orchestrator's code is not in the tree. *)
Inductive FeedbackLine :=
| TimeLossDetected (delta : Q)
| LapFasterThanPredicted (delta : Q)
| MistakeNote (descr : string).

(** Modelled from the spec: the LapAnalysis record (section 3; also
    [LapAnalysis] in the frontend types).  The backend schema is not in the
    tree. *)
Record LapAnalysis := mkAnalysis {
  la_lap_number : Z;
  predicted_lap_time : Q;
  actual_lap_time : Q;
  delta : Q;
  la_performance_score : Q;
  feedback : list FeedbackLine;
  la_sector_times : list (Z * Q);
  mistakes_detected : list Mistake;
  created_at : Z
}.

Definition sum_Q (l : list Q) : Q := foldr Qplus 0 l.

(** Modelled from the spec: the lap's average speed handed to the
    predictor (section 4.5).  The orchestrator's code is not in the tree. *)
Definition average_speed (samples : list TelemetryDataPoint) : Q :=
  sum_Q (speed <$> samples) / inject_Z (Z.of_nat (length samples)).

(** Modelled from the spec: the actual lap time (section 6): supplied by
    the caller, or else the first [lap_time] carried by a sample.  The
    orchestrator's code is not in the tree. *)
Definition resolve_lap_time (samples : list TelemetryDataPoint)
    (supplied : option Q) : option Q :=
  match supplied with
  | Some t => Some t
  | None => head (omap lap_time samples)
  end.

(** Modelled from the spec: the Lap Analysis Orchestrator (section 4.5):
    no samples is [EmptyLapData]; no lap time is [MissingLapTime]; then the
    sector times, the prediction from the first sample's conditions and the
    lap's average speed, the mistakes, the score and the feedback.  [now] is
    the clock that stamps [created_at].  Its code is not in the tree. *)
Definition analyze (eng : Engine) (now : Z) (lap : Z)
    (samples : list TelemetryDataPoint) (supplied : option Q)
  : result LapAnalysis :=
  match samples with
  | [] => Failed EmptyLapData
  | first :: _ =>
      match resolve_lap_time samples supplied with
      | None => Failed MissingLapTime
      | Some actual =>
          let sectors := sector_times samples in
          rbind (predict eng (tire_compound first) (tire_wear first)
                   (track_temperature first) (Some (average_speed samples)))
            (fun p =>
               let predicted := predicted_time p in
               let mistakes := detect_mistakes eng samples sectors in
               let d := actual - predicted in
               let summary := if Qlt_bool 0 d then TimeLossDetected d
                              else LapFasterThanPredicted d in
               Done (mkAnalysis lap predicted actual d
                       (performance_score actual predicted mistakes)
                       (summary :: (MistakeNote ∘ description <$> mistakes))
                       sectors mistakes now))
      end
  end.

(** **** The boundary *)

(** Modelled from the spec: the read contract of the sample store (section
    6): a lap number without stored samples is [LapNotFound]; a lap that is
    known may still hold zero rows.  The service layer is not in the tree. *)
Definition fetch_samples (store : gmap Z (list TelemetryDataPoint)) (lap : Z)
  : result (list TelemetryDataPoint) :=
  match store !! lap with
  | None => Failed LapNotFound
  | Some samples => Done samples
  end.

(** Modelled from the spec: the analysis request at the boundary
    (section 6): fetch the lap's samples, then analyze them.  The service
    layer is not in the tree. *)
Definition analyze_lap (eng : Engine) (now : Z)
    (store : gmap Z (list TelemetryDataPoint)) (lap : Z) (supplied : option Q)
  : result LapAnalysis :=
  rbind (fetch_samples store lap)
        (fun samples => analyze eng now lap samples supplied).

(** Modelled from the spec: how an error is surfaced (section 7, with the
    status codes of docs/API.md).  The service layer is not in the tree. *)
Inductive ErrorClass := NotFound404 | DataError | BadRequest400.

Definition error_class (e : AnalysisError) : ErrorClass :=
  match e with
  | LapNotFound => NotFound404
  | EmptyLapData => DataError
  | MissingLapTime => BadRequest400
  | InvalidParameter _ => BadRequest400
  end.

(** **** A sample engine and a sample lap *)

Definition sample_mistakes : list Mistake :=
  [mkMistake 2 late_braking medium "Late braking detected in Sector 2" 0.234;
   mkMistake 3 tire_degradation medium "Significant tire degradation" 0.15].

(** The answer documented for [GET /telemetry/predict-laptime], and the
    mistakes documented for [GET /telemetry/analysis]. *)
Definition sample_engine : Engine :=
  mkEngine
    (fun _ _ _ _ =>
       mkPrediction 88.456 (87.923, 89.012)
         [("tire_compound", 0.35); ("tire_wear", 0.30);
          ("track_temperature", 0.20); ("avg_speed", 0.15)])
    (fun _ _ => sample_mistakes).

Definition sample_point (k : Z) (t v thr brk : Q) (g : Z) (lt : option Q)
  : TelemetryDataPoint :=
  mkPoint 12 k t v thr brk 0 g "soft" 45.2 42 lt.

Definition sample_lap : list TelemetryDataPoint :=
  [sample_point 1 0 270 100 0 8 (Some 89.234);
   sample_point 2 30 262 100 90 7 (Some 89.234);
   sample_point 2 31 85 80 0 3 (Some 89.234);
   sample_point 3 60 240 45 0 6 (Some 89.234);
   sample_point 3 89 255 100 0 8 (Some 89.234)].

(** Samples without a recorded lap time. *)
Definition untimed_lap : list TelemetryDataPoint :=
  [sample_point 1 0 270 100 0 8 None;
   sample_point 2 30 262 100 90 7 None].

(** A store that knows lap 12, and lap 13 with zero rows. *)
Definition sample_store : gmap Z (list TelemetryDataPoint) :=
  <[13%Z := []]> (<[12%Z := sample_lap]> ∅).

End Core.

(** * Properties of the registry contract *)

Module RegistryFacts.
Import Registry.
#[local] Open Scope sol_scope.

Lemma uint256_max_pos : 0 < uint256_max.
Proof. reflexivity. Qed.

Lemma laps_at_insert_eq n r m l t o :
  laps_at (mkState (<[n := r]> m) l t o) n = r.
Proof. unfold laps_at; simpl. by rewrite lookup_insert_eq. Qed.

Lemma laps_at_insert_ne s n k r l t o :
  n <> k -> laps_at (mkState (<[n := r]> (laps s)) l t o) k = laps_at s k.
Proof. intros Hne. unfold laps_at; simpl. by rewrite lookup_insert_ne. Qed.

Lemma laps_at_stored s n r :
  laps s !! n = Some r -> laps_at s n = r.
Proof. intros H. unfold laps_at. by rewrite H. Qed.

(** What a successful [recordLap] has checked and what it has written. *)
Lemma recordLap_Ok e a s s' evs :
  recordLap e a s = Ok (s', evs) ->
  let r := mkLapRecord (a_lapNumber a) (a_lapTime a) (a_ipfsHash a)
             (a_performanceScore a) (a_sectorTimes a)
             (msg_sender e) (block_timestamp e) true in
  exists_ (laps_at s (a_lapNumber a)) = false /\
  record_ok r /\ a_lapTime a * 99 <= uint256_max /\
  s' = mkState (<[a_lapNumber a := r]> (laps s))
         (lapNumbers s ++ [a_lapNumber a]) (totalLaps s + 1) (owner s) /\
  exists fastest,
    getFastestLapTime s' = Ok fastest /\
    evs = LapRecorded (a_lapNumber a) (a_lapTime a) (a_ipfsHash a)
            (a_performanceScore a) (msg_sender e) (block_timestamp e)
          :: (if a_lapTime a <=? fastest
              then [NewFastestLap (a_lapNumber a) (a_lapTime a) (msg_sender e)]
              else []).
Proof.
  unfold recordLap.
  destruct (exists_ (laps_at s (a_lapNumber a))) eqn:Hex; simpl; [done|].
  destruct (0 <? a_lapTime a) eqn:Ht; [|done].
  destruct (a_performanceScore a <=? 100) eqn:Hp; [|done].
  destruct (0 <? Z.of_nat (String.length (a_ipfsHash a))) eqn:Hh; [|done].
  destruct (a_sectorTimes a) as [[s0 s1] s2] eqn:Hs.
  unfold checked_add, checked_mul.
  destruct (s0 + s1 <=? uint256_max); simpl; [|done].
  destruct (s0 + s1 + s2 <=? uint256_max); simpl; [|done].
  destruct (a_lapTime a * 99 <=? uint256_max) eqn:Hmul; simpl; [|done].
  destruct (a_lapTime a * 99 / 100 <=? s0 + s1 + s2) eqn:Hlo; simpl; [|done].
  destruct (a_lapTime a * 101 <=? uint256_max); simpl; [|done].
  destruct (s0 + s1 + s2 <=? a_lapTime a * 101 / 100) eqn:Hhi; [|done].
  destruct (totalLaps s + 1 <=? uint256_max); simpl; [|done].
  match goal with |- context [getFastestLapTime ?st] =>
    destruct (getFastestLapTime st) as [f| |] eqn:Hf; simpl; [|done|done] end.
  intros Hok. apply Z.ltb_lt in Ht. apply Z.leb_le in Hp, Hlo, Hhi, Hmul.
  split; [done|]. split; [|split; [done|]].
  - unfold record_ok, sector_sum; simpl.
    repeat split; try lia.
    intros Heq. rewrite Heq in Hh. by vm_compute in Hh.
  - destruct (a_lapTime a <=? f) eqn:Hle; inversion Hok; subst;
      (split; [done|]); exists f; rewrite Hle; by split.
Qed.

Lemma recordLap_existing e a s :
  exists_ (laps_at s (a_lapNumber a)) = true ->
  recordLap e a s = Revert "Lap already recorded".
Proof. intros H. unfold recordLap. by rewrite H. Qed.

Lemma constructor_inv e : state_inv (constructor e).
Proof.
  split; simpl.
  - done.
  - constructor.
  - intros n. unfold laps_at; simpl. rewrite lookup_empty; simpl.
    split; [by intros ?%elem_of_nil | done].
  - intros n r. by rewrite lookup_empty.
  - intros n. unfold laps_at; simpl. by rewrite lookup_empty.
  - intros n. unfold laps_at; simpl. by rewrite lookup_empty.
Qed.

Lemma recordLap_inv e a s s' evs :
  state_inv s -> recordLap e a s = Ok (s', evs) -> state_inv s'.
Proof.
  intros [Ht Hnd Hl Hok Hb Hnum] Hrec.
  apply recordLap_Ok in Hrec as (Hfresh & Hr & Hmax & -> & _).
  split; simpl.
  - rewrite length_app; simpl. lia.
  - apply NoDup_app. split; [done|]. split; [|apply NoDup_singleton].
    intros x Hx ->%list_elem_of_singleton.
    apply Hl in Hx. congruence.
  - intros n. rewrite elem_of_app, list_elem_of_singleton.
    destruct (decide (a_lapNumber a = n)) as [<-|Hne].
    + rewrite laps_at_insert_eq. simpl. tauto.
    + rewrite laps_at_insert_ne by done. rewrite Hl. split; [|tauto].
      intros [?|?]; [done|congruence].
  - intros n r. destruct (decide (a_lapNumber a = n)) as [<-|Hne].
    + rewrite lookup_insert_eq. by intros [= <-] _.
    + rewrite lookup_insert_ne by done. apply Hok.
  - intros n. destruct (decide (a_lapNumber a = n)) as [<-|Hne].
    + by rewrite laps_at_insert_eq.
    + rewrite laps_at_insert_ne by done. apply Hb.
  - intros n. destruct (decide (a_lapNumber a = n)) as [<-|Hne].
    + by rewrite laps_at_insert_eq.
    + rewrite laps_at_insert_ne by done. apply Hnum.
Qed.

Lemma reachable_inv s : reachable s -> state_inv s.
Proof.
  induction 1 as [e | s e a s' evs _ IH _ Hrec].
  - apply constructor_inv.
  - eapply recordLap_inv; eauto.
Qed.

(** **** Memory arrays *)

Lemma arr_get_Some {A} (l : list A) i x : l !! i = Some x -> arr_get l i = Ok x.
Proof. intros H. unfold arr_get. by rewrite H. Qed.

Lemma arr_set_lt {A} (l : list A) i x :
  (i < length l)%nat -> arr_set l i x = Ok (<[i := x]> l).
Proof.
  intros H. unfold arr_set.
  destruct (i <? length l)%nat eqn:E; [done|].
  apply Nat.ltb_ge in E. lia.
Qed.

(** Replacing the element at [i] trades it for the new one. *)
Lemma insert_trade {A} (l : list A) i x y :
  l !! i = Some x -> y :: l ≡ₚ x :: <[i := y]> l.
Proof.
  revert i. induction l as [|z l IH]; intros [|i] H; simplify_eq/=.
  - apply Permutation_swap.
  - rewrite (Permutation_swap z y l), (IH i H). apply Permutation_swap.
Qed.

Lemma swap_Ok (l : list LapRecord) i m x y :
  l !! i = Some x -> l !! m = Some y -> i <> m ->
  swap l i m = Ok (<[m := x]> (<[i := y]> l)).
Proof.
  intros Hi Hm Hne. unfold swap.
  rewrite (arr_get_Some _ _ _ Hi), (arr_get_Some _ _ _ Hm); simpl.
  rewrite arr_set_lt by (by eapply lookup_lt_Some); simpl.
  rewrite arr_set_lt; [done|].
  rewrite length_insert. by eapply lookup_lt_Some.
Qed.

Lemma swap_Permutation (l : list LapRecord) i m x y :
  l !! i = Some x -> l !! m = Some y -> i <> m ->
  <[m := x]> (<[i := y]> l) ≡ₚ l.
Proof.
  intros Hi Hm Hne.
  apply (Permutation_cons_inv (a := y)).
  rewrite <- insert_trade by (by rewrite list_lookup_insert_ne).
  symmetry. by apply insert_trade.
Qed.

(** **** The loading loop *)

Lemma load_loop_spec s n i all :
  (i + n <= length (lapNumbers s))%nat -> (i + n <= length all)%nat ->
  exists all', load_loop s n i all = Ok all' /\ length all' = length all /\
    forall j, all' !! j =
      if decide (i <= j < i + n)%nat then laps_at s <$> (lapNumbers s !! j)
      else all !! j.
Proof.
  revert i all. induction n as [|n IH]; intros i all Hln Hall; simpl.
  - exists all. repeat split; [done..|]. intros j. case_decide; [lia|done].
  - destruct (lookup_lt_is_Some_2 (lapNumbers s) i) as [k Hk]; [lia|].
    rewrite (arr_get_Some _ _ _ Hk); simpl.
    rewrite arr_set_lt by lia; simpl.
    destruct (IH (S i) (<[i := laps_at s k]> all)) as (all' & Hrun & Hlen & Hget).
    { lia. } { rewrite length_insert. lia. }
    exists all'. split; [done|]. split; [by rewrite Hlen, length_insert|].
    intros j. rewrite Hget.
    destruct (decide (j = i)) as [->|Hne].
    + rewrite decide_False by lia. rewrite decide_True by lia.
      rewrite list_lookup_insert_eq by lia. by rewrite Hk.
    + rewrite list_lookup_insert_ne by done.
      repeat case_decide; (done || lia).
Qed.

(** **** The inner loop: index of a minimum *)

Lemma min_loop_spec all n j m :
  (m < j)%nat -> (j + n <= length all)%nat ->
  exists m', min_loop all n j m = Ok m' /\
    (m' = m \/ (j <= m' < j + n)%nat) /\
    forall k x y, (k = m \/ (j <= k < j + n)%nat) ->
      all !! k = Some x -> all !! m' = Some y -> lapTime y <= lapTime x.
Proof.
  revert j m. induction n as [|n IH]; intros j m Hm Hlen; simpl.
  - exists m. split; [done|]. split; [by left|].
    intros k x y [->|?] Hx Hy; [|lia]. simplify_eq. lia.
  - destruct (lookup_lt_is_Some_2 all j) as [aj Haj]; [lia|].
    destruct (lookup_lt_is_Some_2 all m) as [am Ham]; [lia|].
    rewrite (arr_get_Some _ _ _ Haj), (arr_get_Some _ _ _ Ham); simpl.
    set (m1 := if lapTime aj <? lapTime am then j else m).
    assert (Hm1 : (m1 < S j)%nat) by (unfold m1; destruct (_ <? _); lia).
    destruct (IH (S j) m1 Hm1) as (m' & Hrun & Hwhere & Hmin); [lia|].
    exists m'. split; [done|]. split.
    { destruct Hwhere as [->|?]; [|right; lia].
      unfold m1. destruct (_ <? _); [right; lia | by left]. }
    assert (Hm1min : forall y, all !! m' = Some y ->
              lapTime y <= lapTime aj /\ lapTime y <= lapTime am).
    { intros y Hy.
      destruct (lookup_lt_is_Some_2 all m1) as [a1 Ha1].
      { unfold m1. destruct (_ <? _); lia. }
      pose proof (Hmin m1 a1 y (or_introl eq_refl) Ha1 Hy) as Hle.
      unfold m1 in Ha1. destruct (lapTime aj <? lapTime am) eqn:E.
      - apply Z.ltb_lt in E. simplify_eq. lia.
      - apply Z.ltb_ge in E. simplify_eq. lia. }
    intros k x y Hk Hx Hy.
    destruct (Hm1min y Hy) as [Hj' Hm'].
    destruct Hk as [->|Hk]; [by simplify_eq|].
    destruct (decide (k = j)) as [->|Hne]; [by simplify_eq|].
    apply (Hmin k x y); [right; lia|done..].
Qed.

(** **** One pass of the outer loop: bring a minimum to cell [i] *)

Lemma select_step total i all :
  length all = total -> (i < total)%nat -> sorted_upto all i ->
  exists m all1,
    min_loop all (total - (i + 1)) (i + 1) i = Ok m /\
    (if (m =? i)%nat then Ok all else swap all i m) = Ok all1 /\
    all1 ≡ₚ all /\ length all1 = total /\
    (forall j, (j < i)%nat -> all1 !! j = all !! j) /\
    sorted_upto all1 (S i).
Proof.
  intros Hlen Hi Hsorted.
  destruct (min_loop_spec all (total - (i + 1)) (i + 1) i)
    as (m & Hrun & Hwhere & Hmin); [lia..|].
  assert (Hmi : (i <= m < total)%nat) by lia.
  assert (Hleast : forall k x y, (i <= k)%nat ->
            all !! k = Some x -> all !! m = Some y -> lapTime y <= lapTime x).
  { intros k x y Hk Hx Hy. apply (Hmin k x y); [|done..].
    apply lookup_lt_Some in Hx. lia. }
  destruct (lookup_lt_is_Some_2 all i) as [ai Hai]; [lia|].
  destruct (lookup_lt_is_Some_2 all m) as [am Ham]; [lia|].
  exists m. destruct (m =? i)%nat eqn:E.
  - apply Nat.eqb_eq in E as ->. exists all. repeat split; try done.
    intros a b x y Ha Hab Hx Hy.
    destruct (decide (a = i)) as [->|Hne].
    + by apply (Hleast b y x).
    + apply (Hsorted a b x y); (done || lia).
  - apply Nat.eqb_neq in E.
    exists (<[m := ai]> (<[i := am]> all)).
    split; [done|]. split; [apply swap_Ok; done || lia|].
    split; [apply swap_Permutation; done || lia|].
    split; [by rewrite !length_insert|].
    assert (Hat : forall j, <[m := ai]> (<[i := am]> all) !! j =
              if decide (j = m) then Some ai
              else if decide (j = i) then Some am else all !! j).
    { intros j. case_decide as Hjm.
      - subst j. apply list_lookup_insert_eq. rewrite length_insert. lia.
      - rewrite list_lookup_insert_ne by done. case_decide as Hji.
        + subst j. apply list_lookup_insert_eq. lia.
        + by rewrite list_lookup_insert_ne. }
    split.
    { intros j Hj. rewrite Hat. rewrite !decide_False by lia. done. }
    intros a b x y Ha Hab. rewrite !Hat. intros Hx Hy.
    destruct (decide (a = i)) as [->|Hne].
    + rewrite decide_False in Hx by lia.
      simplify_eq.
      repeat case_decide; simplify_eq.
      * by apply (Hleast i y x).
      * lia.
      * by apply (Hleast b y x).
    + rewrite !decide_False in Hx by lia.
      repeat case_decide; simplify_eq.
      * apply (Hsorted a i x y); (done || lia).
      * apply (Hsorted a m x y); (done || lia).
      * apply (Hsorted a b x y); (done || lia).
Qed.

(** **** The outer loop *)

Lemma sort_loop_spec total n i all lb :
  length all = total -> (i + n <= total)%nat -> (i + n <= length lb)%nat ->
  sorted_upto all i ->
  exists all' lb',
    sort_loop total n i all lb = Ok lb' /\
    all' ≡ₚ all /\ sorted_upto all' (i + n) /\
    (forall j, (j < i)%nat -> all' !! j = all !! j) /\
    length lb' = length lb /\
    forall j, lb' !! j =
      if decide (i <= j < i + n)%nat then all' !! j else lb !! j.
Proof.
  revert i all lb. induction n as [|n IH]; intros i all lb Hlen Hin Hlb Hsorted.
  - exists all, lb. simpl. repeat split; try done.
    + by rewrite Nat.add_0_r.
    + intros j. case_decide; [lia|done].
  - destruct (select_step total i all) as (m & all1 & Hmin & Hswap & Hperm & Hlen1 & Hpre & Hs1);
      [done|lia|done|].
    destruct (lookup_lt_is_Some_2 all1 i) as [ai Hai]; [lia|].
    destruct (IH (S i) all1 (<[i := ai]> lb)) as (all' & lb' & Hrun & Hperm' & Hs' & Hpre' & Hlen' & Hget);
      [done|lia|rewrite length_insert; lia|done|].
    exists all', lb'. simpl. rewrite Hmin; simpl. rewrite Hswap; simpl.
    rewrite (arr_get_Some _ _ _ Hai); simpl.
    rewrite arr_set_lt by lia; simpl.
    split; [done|]. split; [by rewrite Hperm'|].
    split; [by replace (i + S n)%nat with (S i + n)%nat by lia|].
    split; [intros j Hj; rewrite Hpre' by lia; by apply Hpre|].
    split; [by rewrite Hlen', length_insert|].
    intros j. rewrite Hget.
    destruct (decide (j = i)) as [->|Hne].
    + rewrite decide_False by lia. rewrite decide_True by lia.
      rewrite list_lookup_insert_eq by lia. rewrite Hpre' by lia. done.
    + rewrite list_lookup_insert_ne by done.
      repeat case_decide; (done || lia).
Qed.

(** **** Concrete runs *)

Example recordLap_first :
  exists s', recordLap deployer lap1 (constructor deployer)
    = Ok (s', [LapRecorded 1 88456 "QmTelemetryLap1" 87 1000 1700000000;
               NewFastestLap 1 88456 1000]).
Proof. eexists. vm_compute. reflexivity. Qed.

Example recordLap_twice :
  recordLap deployer lap1 session1 = Revert "Lap already recorded".
Proof. vm_compute. reflexivity. Qed.

Example recordLap_sector_mismatch :
  recordLap deployer (mkLapArgs 3 88456 "QmX" 80 (29145, 30523, 20000)) session1
  = Revert "Sector times must sum to lap time".
Proof. vm_compute. reflexivity. Qed.

Example recordLap_overflow :
  recordLap deployer (mkLapArgs 3 88456 "QmX" 80 (uint256_max, 1, 0)) session1
  = Panic 17.
Proof. vm_compute. reflexivity. Qed.

Example leaderboard_top1 :
  lapNumber <$> match getLeaderboard session2 1 with Ok l => l | _ => [] end = [2].
Proof. vm_compute. reflexivity. Qed.

Example leaderboard_top5 :
  lapNumber <$> match getLeaderboard session2 5 with Ok l => l | _ => [] end = [2; 1].
Proof. vm_compute. reflexivity. Qed.

Lemma wf_lap1 : wf_args lap1.
Proof. unfold wf_args, is_uint256, is_uint8, uint256_max, uint8_max; simpl. lia. Qed.

Lemma wf_lap2 : wf_args lap2.
Proof. unfold wf_args, is_uint256, is_uint8, uint256_max, uint8_max; simpl. lia. Qed.

Lemma session1_reachable : reachable session1.
Proof.
  eapply (reach_record (constructor deployer) deployer lap1).
  - apply reach_deploy.
  - apply wf_lap1.
  - vm_compute. reflexivity.
Qed.

Lemma session2_reachable : reachable session2.
Proof.
  eapply (reach_record session1 deployer lap2).
  - apply session1_reachable.
  - apply wf_lap2.
  - vm_compute. reflexivity.
Qed.

(** **** Invariant of the registry *)

(** C9. In every reachable state of the registry, every stored lap record
    with [exists = true] has a positive lap time, a performance score of at
    most 100, a non-empty IPFS hash, and sector times whose sum lies within
    [lapTime * 99 / 100, lapTime * 101 / 100]; [recordLap] reverts for a lap
    number that is already recorded, a successful [recordLap] leaves every
    existing record as it was, and [totalLaps] equals the length of
    [lapNumbers]. *)
Theorem registry_invariant (s : State) :
  reachable s ->
  (forall n r, laps s !! n = Some r -> exists_ r = true -> record_ok r) /\
  (forall e a, exists_ (laps_at s (a_lapNumber a)) = true ->
     recordLap e a s = Revert "Lap already recorded") /\
  (forall e a s' evs, recordLap e a s = Ok (s', evs) ->
     forall n r, laps s !! n = Some r -> exists_ r = true ->
       laps s' !! n = Some r) /\
  totalLaps s = Z.of_nat (length (lapNumbers s)).
Proof.
  intros Hreach. destruct (reachable_inv s Hreach) as [Ht _ _ Hok _ _].
  split; [exact Hok|]. split; [intros e a; apply recordLap_existing|].
  split; [|exact Ht].
  intros e a s' evs Hrec n r Hn Hex.
  apply recordLap_Ok in Hrec as (Hfresh & _ & _ & -> & _); simpl.
  rewrite lookup_insert_ne; [done|].
  intros <-. rewrite (laps_at_stored _ _ _ Hn) in Hfresh. congruence.
Qed.

Lemma registry_invariant_witness :
  reachable session2 /\
  (forall n r, laps session2 !! n = Some r -> exists_ r = true -> record_ok r) /\
  (forall e a, exists_ (laps_at session2 (a_lapNumber a)) = true ->
     recordLap e a session2 = Revert "Lap already recorded") /\
  (forall e a s' evs, recordLap e a session2 = Ok (s', evs) ->
     forall n r, laps session2 !! n = Some r -> exists_ r = true ->
       laps s' !! n = Some r) /\
  totalLaps session2 = Z.of_nat (length (lapNumbers session2)).
Proof.
  split; [exact session2_reachable|].
  apply (registry_invariant session2). exact session2_reachable.
Defined.

(** **** The leaderboard *)

(** A state where [totalLaps] is the length of [lapNumbers]: the loops
    stay within the bounds of the arrays. *)
Section Leaderboard.
Variable s : State.
Hypothesis Ht : totalLaps s = Z.of_nat (length (lapNumbers s)).

Lemma load_all :
  let total := Z.to_nat (totalLaps s) in
  load_loop s total 0 (new_array total) = Ok (recorded s).
Proof.
  intros total.
  assert (Htot : total = length (lapNumbers s)) by (unfold total; lia).
  destruct (load_loop_spec s total 0 (new_array total)) as (all' & Hrun & Hlen & Hget).
  { lia. } { unfold new_array. rewrite length_replicate. lia. }
  rewrite Hrun. f_equal. apply list_eq. intros j.
  unfold recorded. rewrite list_lookup_fmap, Hget.
  case_decide as Hj; [done|].
  rewrite !lookup_ge_None_2; [done|lia|].
  unfold new_array. rewrite length_replicate. lia.
Qed.

(** What a run of [getLeaderboard] with a count in range returns. *)
Lemma leaderboard_run count :
  1 <= count <= 50 ->
  exists lb rest,
    getLeaderboard s count = Ok lb /\
    Z.of_nat (length lb) = Z.min count (totalLaps s) /\
    (forall a b x y, (a <= b)%nat -> lb !! a = Some x -> lb !! b = Some y ->
       lapTime x <= lapTime y) /\
    lb ++ rest ≡ₚ recorded s /\
    (forall x y, x ∈ lb -> y ∈ rest -> lapTime x <= lapTime y).
Proof.
  intros Hcount. unfold getLeaderboard.
  replace ((0 <? count) && (count <=? 50)) with true
    by (symmetry; apply andb_true_iff; split; [apply Z.ltb_lt|apply Z.leb_le]; lia).
  rewrite load_all; simpl.
  set (rc := Z.to_nat (if totalLaps s <? count then totalLaps s else count)).
  set (total := Z.to_nat (totalLaps s)).
  assert (Hrc : Z.of_nat rc = Z.min count (totalLaps s)).
  { unfold rc. destruct (totalLaps s <? count) eqn:E.
    - apply Z.ltb_lt in E. lia.
    - apply Z.ltb_ge in E. lia. }
  assert (Hlen : length (recorded s) = total).
  { unfold recorded, total. rewrite length_fmap. lia. }
  destruct (sort_loop_spec total rc 0 (recorded s) (new_array rc))
    as (all' & lb & Hrun & Hperm & Hsorted & _ & Hlb & Hget).
  { done. } { lia. } { unfold new_array. rewrite length_replicate. lia. }
  { intros a b x y Ha. lia. }
  assert (Hlb' : length lb = rc).
  { rewrite Hlb. unfold new_array. by rewrite length_replicate. }
  assert (Hall' : length all' = total) by (by rewrite Hperm).
  assert (Htake : lb = take rc all').
  { apply list_eq. intros j. rewrite Hget.
    destruct (decide (j < rc)%nat).
    - rewrite decide_True by lia. by rewrite lookup_take_lt.
    - rewrite decide_False by lia.
      rewrite lookup_ge_None_2 by (unfold new_array; rewrite length_replicate; lia).
      symmetry. apply lookup_ge_None_2. rewrite length_take. lia. }
  exists lb, (drop rc all'). split; [done|]. split; [lia|].
  split; [|split].
  - intros a b x y Hab Hx Hy. rewrite Htake in Hx, Hy.
    pose proof (lookup_lt_Some _ _ _ Hx) as Ha. rewrite length_take in Ha.
    pose proof (lookup_lt_Some _ _ _ Hy) as Hb. rewrite length_take in Hb.
    rewrite lookup_take_lt in Hx, Hy by lia.
    apply (Hsorted a b x y); (done || lia).
  - by rewrite Htake, take_drop.
  - intros x y Hx Hy.
    rewrite Htake in Hx. apply list_elem_of_lookup in Hx as [a Hx].
    apply list_elem_of_lookup in Hy as [b Hy].
    pose proof (lookup_lt_Some _ _ _ Hx) as Ha. rewrite length_take in Ha.
    rewrite lookup_take_lt in Hx by lia. rewrite lookup_drop in Hy.
    apply (Hsorted a (rc + b)%nat x y); (done || lia).
Qed.

End Leaderboard.

Lemma recorded_exists s r :
  state_inv s ->
  r ∈ recorded s <-> exists n, exists_ (laps_at s n) = true /\ laps_at s n = r.
Proof.
  intros Hinv. unfold recorded. rewrite list_elem_of_fmap. split.
  - intros (n & -> & Hn). exists n. split; [by apply (inv_listed _ Hinv)|done].
  - intros (n & Hn & <-). exists n. split; [done|by apply (inv_listed _ Hinv)].
Qed.

(** C10. In a reachable state, for every count with 1 <= count <= 50,
    [getLeaderboard count] returns exactly min(count, totalLaps) records in
    non-decreasing lap-time order, and they are the recorded laps with the
    smallest lap times: together with the laps left out they make up the
    recorded laps, and no lap left out is faster than a returned one.  A call
    with count = 0 or count > 50 reverts. *)
Theorem getLeaderboard_correct (s : State) :
  reachable s ->
  (forall r, r ∈ recorded s <->
     exists n, exists_ (laps_at s n) = true /\ laps_at s n = r) /\
  (forall count, 1 <= count <= 50 ->
     exists lb rest,
       getLeaderboard s count = Ok lb /\
       Z.of_nat (length lb) = Z.min count (totalLaps s) /\
       (forall a b x y, (a <= b)%nat -> lb !! a = Some x -> lb !! b = Some y ->
          lapTime x <= lapTime y) /\
       lb ++ rest ≡ₚ recorded s /\
       (forall x y, x ∈ lb -> y ∈ rest -> lapTime x <= lapTime y)) /\
  (forall count, count = 0 \/ 50 < count ->
     getLeaderboard s count = Revert "Count must be between 1 and 50").
Proof.
  intros Hreach. pose proof (reachable_inv s Hreach) as Hinv.
  split; [|split].
  - intros r. by apply recorded_exists.
  - intros count Hcount. apply leaderboard_run; [apply (inv_total _ Hinv)|done].
  - intros count Hcount. unfold getLeaderboard.
    replace ((0 <? count) && (count <=? 50)) with false; [done|].
    symmetry. apply andb_false_iff. destruct Hcount as [->|Hc]; [by left|].
    right. apply Z.leb_gt. lia.
Qed.

(** **** The fastest lap *)

Lemma fastest_loop_spec s n i f :
  (i + n <= length (lapNumbers s))%nat ->
  exists t, fastest_loop s n i f = Ok t /\ t <= f /\
    (forall j k, (i <= j < i + n)%nat -> lapNumbers s !! j = Some k ->
       t <= lapTime (laps_at s k)) /\
    (t = f \/ exists j k, (i <= j < i + n)%nat /\
       lapNumbers s !! j = Some k /\ t = lapTime (laps_at s k)).
Proof.
  revert i f. induction n as [|n IH]; intros i f Hlen; simpl.
  - exists f. split; [done|]. split; [lia|]. split; [intros; lia|by left].
  - destruct (lookup_lt_is_Some_2 (lapNumbers s) i) as [k Hk]; [lia|].
    rewrite Hk.
    set (f' := if lapTime (laps_at s k) <? f then lapTime (laps_at s k) else f).
    assert (Hf' : f' <= f /\ f' <= lapTime (laps_at s k) /\
                  (f' = f \/ f' = lapTime (laps_at s k))).
    { unfold f'. destruct (lapTime (laps_at s k) <? f) eqn:E.
      - apply Z.ltb_lt in E. lia.
      - apply Z.ltb_ge in E. lia. }
    destruct (IH (S i) f') as (t & Hrun & Hle & Hmin & Hfrom); [lia|].
    exists t. split; [done|]. split; [lia|]. split.
    + intros j k' Hj Hk'. destruct (decide (j = i)) as [->|Hne].
      * simplify_eq. lia.
      * apply (Hmin j); [lia|done].
    + destruct Hfrom as [->|(j & k' & Hj & Hk' & ->)].
      * destruct Hf' as (_ & _ & [->| ->]); [by left|].
        right. exists i, k. split; [lia|done].
      * right. exists j, k'. split; [lia|done].
Qed.

(** [getFastestLapTime] in a state that satisfies the invariant. *)
Lemma fastest_run s :
  state_inv s ->
  exists t, getFastestLapTime s = Ok t /\
    (recorded s = [] -> t = uint256_max) /\
    (forall r, r ∈ recorded s -> t <= lapTime r) /\
    (recorded s <> [] -> exists r, r ∈ recorded s /\ lapTime r = t).
Proof.
  intros Hinv. pose proof (inv_total _ Hinv) as Ht. unfold getFastestLapTime.
  destruct (totalLaps s =? 0) eqn:E.
  - apply Z.eqb_eq in E.
    assert (Hnil : lapNumbers s = []) by (apply length_zero_iff_nil; lia).
    exists uint256_max. unfold recorded. rewrite Hnil; simpl.
    split; [done|]. split; [done|]. split; [by intros r ?%elem_of_nil|done].
  - apply Z.eqb_neq in E.
    destruct (fastest_loop_spec s (Z.to_nat (totalLaps s)) 0 uint256_max)
      as (t & Hrun & Hle & Hmin & Hfrom); [lia|].
    exists t. split; [done|].
    assert (Hall : forall r, r ∈ recorded s -> t <= lapTime r).
    { intros r [k [-> Hk]]%list_elem_of_fmap.
      apply list_elem_of_lookup in Hk as [j Hj].
      apply (Hmin j k); [|done]. apply lookup_lt_Some in Hj. lia. }
    split; [|split; [exact Hall|]].
    + unfold recorded. intros Hnil%fmap_nil_inv. rewrite Hnil in Ht. simpl in Ht. lia.
    + intros _. destruct Hfrom as [->|(j & k & _ & Hk & ->)].
      * destruct (lapNumbers s) as [|k ks] eqn:Hks; [simpl in Ht; lia|].
        exists (laps_at s k). split.
        { unfold recorded. rewrite Hks. simpl. left. }
        pose proof (inv_bounded _ Hinv k). pose proof uint256_max_pos.
        assert (uint256_max <= lapTime (laps_at s k)); [|lia].
        apply Hall. unfold recorded. rewrite Hks. simpl. left.
      * exists (laps_at s k). split; [|done].
        unfold recorded. apply list_elem_of_fmap. exists k. split; [done|].
        by eapply list_elem_of_lookup_2.
Qed.

(** The laps enumerated after a successful [recordLap]: the old ones, then
    the new one. *)
Lemma recorded_after s n r total o :
  state_inv s -> exists_ (laps_at s n) = false ->
  recorded (mkState (<[n := r]> (laps s)) (lapNumbers s ++ [n]) total o)
  = recorded s ++ [r].
Proof.
  intros Hinv Hfresh. unfold recorded; simpl. rewrite fmap_app; simpl.
  rewrite laps_at_insert_eq. f_equal.
  apply list_fmap_ext. intros i k Hk.
  apply laps_at_insert_ne. intros ->.
  apply list_elem_of_lookup_2, (inv_listed _ Hinv) in Hk. congruence.
Qed.

Lemma getLeaderboard_correct_witness :
  reachable session2 /\
  (forall r, r ∈ recorded session2 <->
     exists n, exists_ (laps_at session2 n) = true /\ laps_at session2 n = r) /\
  (forall count, 1 <= count <= 50 ->
     exists lb rest,
       getLeaderboard session2 count = Ok lb /\
       Z.of_nat (length lb) = Z.min count (totalLaps session2) /\
       (forall a b x y, (a <= b)%nat -> lb !! a = Some x -> lb !! b = Some y ->
          lapTime x <= lapTime y) /\
       lb ++ rest ≡ₚ recorded session2 /\
       (forall x y, x ∈ lb -> y ∈ rest -> lapTime x <= lapTime y)) /\
  (forall count, count = 0 \/ 50 < count ->
     getLeaderboard session2 count = Revert "Count must be between 1 and 50").
Proof.
  split; [exact session2_reachable|].
  apply (getLeaderboard_correct session2). exact session2_reachable.
Defined.

(** X1. In every reachable state [getFastestLapTime] returns without
    reverting: [type(uint256).max] when no lap is recorded, and otherwise
    the smallest lap time among the recorded laps. *)
Theorem getFastestLapTime_minimum (s : State) :
  reachable s ->
  exists t, getFastestLapTime s = Ok t /\
    (recorded s = [] -> t = uint256_max) /\
    (forall r, r ∈ recorded s -> t <= lapTime r) /\
    (recorded s <> [] -> exists r, r ∈ recorded s /\ lapTime r = t).
Proof. intros Hreach. apply fastest_run. by apply reachable_inv. Qed.

Lemma getFastestLapTime_minimum_witness :
  exists t, getFastestLapTime session2 = Ok t /\
    (recorded session2 = [] -> t = uint256_max) /\
    (forall r, r ∈ recorded session2 -> t <= lapTime r) /\
    (recorded session2 <> [] -> exists r, r ∈ recorded session2 /\ lapTime r = t).
Proof. apply (getFastestLapTime_minimum session2). exact session2_reachable. Defined.

Example fastest_of_session2 : getFastestLapTime session2 = Ok 88234.
Proof. vm_compute. reflexivity. Qed.

Example fastest_of_empty :
  getFastestLapTime (constructor deployer) = Ok uint256_max.
Proof. vm_compute. reflexivity. Qed.

(** X2. In a reachable state with at least one lap, the first record of
    [getLeaderboard count], for any count from 1 to 50, is a lap whose time
    is the one [getFastestLapTime] returns. *)
Theorem leaderboard_head_fastest (s : State) (count : Z) :
  reachable s -> 1 <= count <= 50 -> 0 < totalLaps s ->
  exists r lb,
    getLeaderboard s count = Ok (r :: lb) /\
    getFastestLapTime s = Ok (lapTime r).
Proof.
  intros Hreach Hcount Hsome. pose proof (reachable_inv s Hreach) as Hinv.
  destruct (leaderboard_run s (inv_total _ Hinv) count Hcount)
    as (lb & rest & Hrun & Hlen & Hsorted & Hperm & Hsmall).
  destruct lb as [|r lb]; [simpl in Hlen; lia|].
  exists r, lb. split; [done|].
  destruct (fastest_run s Hinv) as (t & Ht & _ & Hall & Hfrom).
  rewrite Ht. f_equal.
  assert (Hr : r ∈ recorded s).
  { rewrite <- Hperm. apply elem_of_app. left. left. }
  destruct Hfrom as (r' & Hr' & <-).
  { intros Hnil. rewrite Hnil in Hr. by apply elem_of_nil in Hr. }
  assert (lapTime r <= lapTime r'); [|pose proof (Hall r Hr); lia].
  rewrite <- Hperm in Hr'. apply elem_of_app in Hr' as [Hin|Hin].
  - apply list_elem_of_lookup in Hin as [b Hb].
    apply (Hsorted 0%nat b r r'); [lia|done..].
  - apply Hsmall; [left|done].
Qed.

Lemma leaderboard_head_fastest_witness :
  exists r lb,
    getLeaderboard session2 3 = Ok (r :: lb) /\
    getFastestLapTime session2 = Ok (lapTime r).
Proof.
  apply (leaderboard_head_fastest session2 3).
  - exact session2_reachable.
  - lia.
  - reflexivity.
Defined.

(** X3. A successful [recordLap] in a reachable state emits [LapRecorded]
    first, and [NewFastestLap] exactly when the new lap time is less than or
    equal to every lap time recorded before: a tie with the fastest lap
    counts. *)
Theorem NewFastestLap_emitted (s : State) (e : Env) (a : LapArgs)
    (s' : State) (evs : list Event) :
  reachable s -> recordLap e a s = Ok (s', evs) ->
  head evs = Some (LapRecorded (a_lapNumber a) (a_lapTime a) (a_ipfsHash a)
                     (a_performanceScore a) (msg_sender e) (block_timestamp e)) /\
  (NewFastestLap (a_lapNumber a) (a_lapTime a) (msg_sender e) ∈ evs <->
   forall r, r ∈ recorded s -> a_lapTime a <= lapTime r).
Proof.
  intros Hreach Hrec. pose proof (reachable_inv s Hreach) as Hinv.
  pose proof (recordLap_inv _ _ _ _ _ Hinv Hrec) as Hinv'.
  apply recordLap_Ok in Hrec as (Hfresh & _ & _ & Hs' & fastest & Hfast & ->).
  split; [done|].
  destruct (fastest_run s' Hinv') as (t & Ht & _ & Hall & Hfrom).
  rewrite Hfast in Ht. injection Ht as <-.
  rewrite Hs', (recorded_after s _ _ _ _ Hinv Hfresh) in Hall, Hfrom.
  destruct (a_lapTime a <=? fastest) eqn:Hle.
  - apply Z.leb_le in Hle. split; [|intros _; right; left].
    intros _ r Hr. assert (fastest <= lapTime r); [|lia].
    apply Hall, elem_of_app. by left.
  - apply Z.leb_gt in Hle. split.
    + intros Hin. apply elem_of_cons in Hin as [Hin|Hin]; [done|].
      by apply elem_of_nil in Hin.
    + intros Hleast. exfalso.
      destruct Hfrom as (r & Hr & Hrt); [by destruct (recorded s)|].
      apply elem_of_app in Hr as [Hr|Hr].
      * pose proof (Hleast r Hr). lia.
      * apply list_elem_of_singleton in Hr as ->. simpl in Hrt. lia.
Qed.

Lemma NewFastestLap_emitted_witness :
  exists s' evs,
    recordLap deployer lap2 session1 = Ok (s', evs) /\
    head evs = Some (LapRecorded 2 88234 "QmTelemetryLap2" 91 1000 1700000000) /\
    (NewFastestLap 2 88234 1000 ∈ evs <->
     forall r, r ∈ recorded session1 -> 88234 <= lapTime r).
Proof.
  destruct (recordLap deployer lap2 session1) as [[s' evs]| |] eqn:Hrun;
    [|by vm_compute in Hrun..].
  exists s', evs. split; [done|].
  apply (NewFastestLap_emitted session1 deployer lap2 s' evs).
  - exact session1_reachable.
  - exact Hrun.
Defined.

Example tie_is_a_new_fastest_lap :
  exists s', recordLap deployer
      (mkLapArgs 3 88234 "QmTelemetryLap3" 90 (29100, 30400, 28734)) session2
    = Ok (s', [LapRecorded 3 88234 "QmTelemetryLap3" 90 1000 1700000000;
               NewFastestLap 3 88234 1000]).
Proof. eexists. vm_compute. reflexivity. Qed.

(** X5. In every reachable state [lapNumbers] has no duplicates and lists
    exactly the lap numbers whose record exists, each record is stored under
    its own lap number, and a successful [recordLap] appends its lap number,
    raises [totalLaps] by one and leaves the owner as it was. *)
Theorem lapNumbers_exact (s : State) :
  reachable s ->
  NoDup (lapNumbers s) /\
  (forall n, n ∈ lapNumbers s <-> exists_ (laps_at s n) = true) /\
  (forall n, exists_ (laps_at s n) = true -> lapNumber (laps_at s n) = n) /\
  (forall e a s' evs, recordLap e a s = Ok (s', evs) ->
     lapNumbers s' = lapNumbers s ++ [a_lapNumber a] /\
     totalLaps s' = totalLaps s + 1 /\ owner s' = owner s).
Proof.
  intros Hreach. destruct (reachable_inv s Hreach) as [_ Hnd Hl _ _ Hnum].
  split; [done|]. split; [done|]. split; [done|].
  intros e a s' evs Hrec.
  by apply recordLap_Ok in Hrec as (_ & _ & _ & -> & _).
Qed.

Lemma lapNumbers_exact_witness :
  NoDup (lapNumbers session2) /\
  (forall n, n ∈ lapNumbers session2 <-> exists_ (laps_at session2 n) = true) /\
  (forall n, exists_ (laps_at session2 n) = true ->
     lapNumber (laps_at session2 n) = n) /\
  (forall e a s' evs, recordLap e a session2 = Ok (s', evs) ->
     lapNumbers s' = lapNumbers session2 ++ [a_lapNumber a] /\
     totalLaps s' = totalLaps session2 + 1 /\ owner s' = owner session2).
Proof. apply (lapNumbers_exact session2). exact session2_reachable. Defined.

(** **** The number of the fastest lap *)

(** The loop of [getFastestLapNumber] from index [i] with [n] rounds left:
    either no lap from [i] on is strictly below [ft] and the pair is
    unchanged, or the result is the first lap from [i] on with the least
    time, and that time is below [ft]. *)
Lemma fastest_number_loop_spec s n i fl ft :
  (i + n <= length (lapNumbers s))%nat ->
  exists r, fastest_number_loop s n i fl ft = Ok r /\
    ((r = fl /\
      forall j k, (i <= j < i + n)%nat -> lapNumbers s !! j = Some k ->
        ft <= lapTime (laps_at s k)) \/
     (exists j, (i <= j < i + n)%nat /\ lapNumbers s !! j = Some r /\
        lapTime (laps_at s r) < ft /\
        (forall j' k', (i <= j' < j)%nat -> lapNumbers s !! j' = Some k' ->
           lapTime (laps_at s r) < lapTime (laps_at s k')) /\
        (forall j' k', (j <= j' < i + n)%nat -> lapNumbers s !! j' = Some k' ->
           lapTime (laps_at s r) <= lapTime (laps_at s k')))).
Proof.
  revert i fl ft. induction n as [|n IH]; intros i fl ft Hlen; simpl.
  - exists fl. split; [done|]. left. split; [done|]. intros; lia.
  - destruct (lookup_lt_is_Some_2 (lapNumbers s) i) as [k Hk]; [lia|].
    rewrite (arr_get_Some _ _ _ Hk); simpl.
    destruct (lapTime (laps_at s k) <? ft) eqn:E.
    + apply Z.ltb_lt in E.
      destruct (IH (S i) k (lapTime (laps_at s k))) as (r & Hrun & Hcase); [lia|].
      exists r. split; [done|]. right.
      destruct Hcase as [[-> Hge]|(j & Hj & Hjr & Hlt & Hbefore & Hafter)].
      * exists i. split; [lia|]. split; [done|]. split; [done|].
        split; [intros; lia|].
        intros j' k' Hj' Hk'. destruct (decide (j' = i)) as [->|Hne].
        -- simplify_eq. lia.
        -- apply (Hge j'); [lia|done].
      * exists j. split; [lia|]. split; [done|]. split; [lia|]. split.
        -- intros j' k' Hj' Hk'. destruct (decide (j' = i)) as [->|Hne].
           ++ simplify_eq. lia.
           ++ apply (Hbefore j'); [lia|done].
        -- intros j' k' Hj' Hk'. apply (Hafter j'); [lia|done].
    + apply Z.ltb_ge in E.
      destruct (IH (S i) fl ft) as (r & Hrun & Hcase); [lia|].
      exists r. split; [done|].
      destruct Hcase as [[-> Hge]|(j & Hj & Hjr & Hlt & Hbefore & Hafter)].
      * left. split; [done|].
        intros j' k' Hj' Hk'. destruct (decide (j' = i)) as [->|Hne].
        -- simplify_eq. lia.
        -- apply (Hge j'); [lia|done].
      * right. exists j. split; [lia|]. split; [done|]. split; [done|]. split.
        -- intros j' k' Hj' Hk'. destruct (decide (j' = i)) as [->|Hne].
           ++ simplify_eq. lia.
           ++ apply (Hbefore j'); [lia|done].
        -- intros j' k' Hj' Hk'. apply (Hafter j'); [lia|done].
Qed.

(** X6. In a reachable state with at least one lap, [getFastestLapNumber]
    returns the number of a recorded lap whose time is the least of all
    recorded laps; among laps that tie for the least time it is the one
    recorded first, every lap recorded before it being strictly slower.
    With no lap recorded the call reverts. *)
Theorem getFastestLapNumber_first_minimum (s : State) :
  reachable s ->
  (totalLaps s = 0 -> getFastestLapNumber s = Revert "No laps recorded yet") /\
  (0 < totalLaps s ->
   exists n j,
     getFastestLapNumber s = Ok n /\
     lapNumbers s !! j = Some n /\
     exists_ (laps_at s n) = true /\
     getFastestLapTime s = Ok (lapTime (laps_at s n)) /\
     (forall r, r ∈ recorded s -> lapTime (laps_at s n) <= lapTime r) /\
     (forall j' k, (j' < j)%nat -> lapNumbers s !! j' = Some k ->
        lapTime (laps_at s n) < lapTime (laps_at s k))).
Proof.
  intros Hreach. pose proof (reachable_inv s Hreach) as Hinv.
  pose proof (inv_total _ Hinv) as Ht. unfold getFastestLapNumber.
  split; [by intros ->|]. intros Hsome.
  replace (0 <? totalLaps s) with true by (symmetry; apply Z.ltb_lt; lia).
  simpl.
  destruct (fastest_number_loop_spec s (Z.to_nat (totalLaps s)) 0 0 uint256_max)
    as (n & Hrun & Hcase); [lia|].
  destruct Hcase as [[_ Hge]|(j & Hj & Hjn & Hlt & Hbefore & Hafter)].
  - exfalso. destruct (lookup_lt_is_Some_2 (lapNumbers s) 0) as [k Hk]; [lia|].
    pose proof (Hge 0%nat k ltac:(lia) Hk).
    pose proof (inv_bounded _ Hinv k). pose proof uint256_max_pos. lia.
  - exists n, j. split; [done|]. split; [done|].
    assert (Hall : forall r, r ∈ recorded s -> lapTime (laps_at s n) <= lapTime r).
    { intros r [k [-> Hk]]%list_elem_of_fmap.
      apply list_elem_of_lookup in Hk as [j' Hj'].
      pose proof (lookup_lt_Some _ _ _ Hj').
      destruct (decide (j' < j)%nat).
      - apply Z.lt_le_incl, (Hbefore j'); [lia|done].
      - apply (Hafter j'); [lia|done]. }
    split; [by eapply (inv_listed _ Hinv), list_elem_of_lookup_2|].
    split; [|split; [exact Hall|]].
    + destruct (fastest_run s Hinv) as (t & Hrun' & _ & Hmin & Hfrom).
      rewrite Hrun'. f_equal.
      assert (Hn : laps_at s n ∈ recorded s).
      { apply list_elem_of_fmap. exists n. split; [done|].
        by eapply list_elem_of_lookup_2. }
      destruct Hfrom as (r & Hr & <-).
      { intros Hnil. rewrite Hnil in Hn. by apply elem_of_nil in Hn. }
      pose proof (Hall r Hr). pose proof (Hmin _ Hn). lia.
    + intros j' k Hj' Hk. apply (Hbefore j'); [lia|done].
Qed.

Lemma getFastestLapNumber_first_minimum_witness :
  (totalLaps session2 = 0 ->
   getFastestLapNumber session2 = Revert "No laps recorded yet") /\
  (0 < totalLaps session2 ->
   exists n j,
     getFastestLapNumber session2 = Ok n /\
     lapNumbers session2 !! j = Some n /\
     exists_ (laps_at session2 n) = true /\
     getFastestLapTime session2 = Ok (lapTime (laps_at session2 n)) /\
     (forall r, r ∈ recorded session2 -> lapTime (laps_at session2 n) <= lapTime r) /\
     (forall j' k, (j' < j)%nat -> lapNumbers session2 !! j' = Some k ->
        lapTime (laps_at session2 n) < lapTime (laps_at session2 k))).
Proof.
  apply (getFastestLapNumber_first_minimum session2). exact session2_reachable.
Defined.

Example fastest_number_of_session2 : getFastestLapNumber session2 = Ok 2.
Proof. vm_compute. reflexivity. Qed.

Example fastest_number_of_empty :
  getFastestLapNumber (constructor deployer) = Revert "No laps recorded yet".
Proof. vm_compute. reflexivity. Qed.

(** **** Reading a lap back *)

Lemma getLap_Ok s n r :
  getLap s n = Ok r <-> exists_ (laps_at s n) = true /\ r = laps_at s n.
Proof.
  unfold getLap. destruct (exists_ (laps_at s n)); split.
  - by intros [= <-].
  - by intros [_ ->].
  - done.
  - by intros [? _].
Qed.

Lemma getLap_missing s n :
  exists_ (laps_at s n) = false -> getLap s n = Revert "Lap does not exist".
Proof. intros H. unfold getLap. by rewrite H. Qed.

(** X7. What a successful [recordLap] stores is what [getLap] returns for
    that lap number afterwards: the arguments, the sender, the block
    timestamp and [exists = true].  Before the call [getLap] reverted for
    that number, and for every other number it answers as before. *)
Theorem recordLap_getLap (e : Env) (a : LapArgs) (s s' : State) (evs : list Event) :
  recordLap e a s = Ok (s', evs) ->
  getLap s (a_lapNumber a) = Revert "Lap does not exist" /\
  getLap s' (a_lapNumber a)
  = Ok (mkLapRecord (a_lapNumber a) (a_lapTime a) (a_ipfsHash a)
          (a_performanceScore a) (a_sectorTimes a)
          (msg_sender e) (block_timestamp e) true) /\
  lapRecordExists s' (a_lapNumber a) = true /\
  (forall n, n <> a_lapNumber a ->
     getLap s' n = getLap s n /\ lapRecordExists s' n = lapRecordExists s n).
Proof.
  intros Hrec. apply recordLap_Ok in Hrec as (Hfresh & _ & _ & -> & _).
  split; [by apply getLap_missing|].
  unfold getLap, lapRecordExists. rewrite laps_at_insert_eq. simpl.
  split; [done|]. split; [done|].
  intros n Hne. by rewrite laps_at_insert_ne.
Qed.

Lemma recordLap_getLap_witness :
  exists s' evs,
    recordLap deployer lap2 session1 = Ok (s', evs) /\
    getLap session1 2 = Revert "Lap does not exist" /\
    getLap s' 2
    = Ok (mkLapRecord 2 88234 "QmTelemetryLap2" 91 (29100, 30400, 28734)
            1000 1700000000 true) /\
    lapRecordExists s' 2 = true /\
    (forall n, n <> 2 ->
       getLap s' n = getLap session1 n /\
       lapRecordExists s' n = lapRecordExists session1 n).
Proof.
  destruct (recordLap deployer lap2 session1) as [[s' evs]| |] eqn:Hrun;
    [|by vm_compute in Hrun..].
  exists s', evs. split; [done|].
  apply (recordLap_getLap deployer lap2 session1 s' evs Hrun).
Defined.

(** **** Records are final *)

Lemma recordLap_keeps e a s s' evs n :
  recordLap e a s = Ok (s', evs) ->
  exists_ (laps_at s n) = true ->
  laps_at s' n = laps_at s n.
Proof.
  intros Hrec Hex. apply recordLap_Ok in Hrec as (Hfresh & _ & _ & -> & _).
  apply laps_at_insert_ne. intros Heq. rewrite Heq in Hfresh. congruence.
Qed.

(** X8. Once a lap is recorded it is final: after any number of later
    successful [recordLap] calls [getLap] still returns the same record,
    the lap numbers recorded so far remain the front of [lapNumbers],
    [totalLaps] has not decreased, and recording that lap number again
    reverts with "Lap already recorded". *)
Theorem recorded_lap_is_final (s s' : State) :
  later s s' ->
  (forall n r, getLap s n = Ok r -> getLap s' n = Ok r) /\
  lapNumbers s `prefix_of` lapNumbers s' /\
  totalLaps s <= totalLaps s' /\
  (forall n e a, lapRecordExists s n = true -> a_lapNumber a = n ->
     recordLap e a s' = Revert "Lap already recorded").
Proof.
  intros Hlater.
  assert (Hkeep : (forall n r, getLap s n = Ok r -> getLap s' n = Ok r) /\
                  lapNumbers s `prefix_of` lapNumbers s' /\
                  totalLaps s <= totalLaps s').
  { induction Hlater as [s | s s1 e a s2 evs _ (IHget & IHpre & IHtot) Hrec].
    - split; [done|]. split; [done|lia].
    - split; [|split].
      + intros n r Hget. apply IHget, getLap_Ok in Hget as [Hex ->].
        apply getLap_Ok. rewrite (recordLap_keeps _ _ _ _ _ _ Hrec Hex). done.
      + apply recordLap_Ok in Hrec as (_ & _ & _ & -> & _). simpl.
        etrans; [exact IHpre|]. by apply prefix_app_r.
      + apply recordLap_Ok in Hrec as (_ & _ & _ & -> & _). simpl. lia. }
  destruct Hkeep as (Hget & Hpre & Htot).
  split; [done|]. split; [done|]. split; [done|].
  intros n e a Hex <-. apply recordLap_existing.
  unfold lapRecordExists in Hex.
  assert (Hs : getLap s (a_lapNumber a) = Ok (laps_at s (a_lapNumber a)))
    by by apply getLap_Ok.
  by apply Hget, getLap_Ok in Hs as [? _].
Qed.

Lemma session2_later : later session1 session2.
Proof.
  destruct (recordLap deployer lap2 session1) as [[s' evs]| |] eqn:Hrun;
    [|by vm_compute in Hrun..].
  replace session2 with s'.
  - eapply later_record; [apply later_refl|exact Hrun].
  - unfold session2, after. by rewrite Hrun.
Qed.

Lemma recorded_lap_is_final_witness :
  (forall n r, getLap session1 n = Ok r -> getLap session2 n = Ok r) /\
  lapNumbers session1 `prefix_of` lapNumbers session2 /\
  totalLaps session1 <= totalLaps session2 /\
  (forall n e a, lapRecordExists session1 n = true -> a_lapNumber a = n ->
     recordLap e a session2 = Revert "Lap already recorded").
Proof. apply (recorded_lap_is_final session1 session2). exact session2_later. Defined.

(** **** When [recordLap] succeeds *)

Lemma recordLap_checks e a s s' evs :
  recordLap e a s = Ok (s', evs) ->
  args_ok a /\ totalLaps s + 1 <= uint256_max.
Proof.
  unfold recordLap, args_ok.
  destruct (exists_ (laps_at s (a_lapNumber a))) eqn:Hex; simpl; [done|].
  destruct (0 <? a_lapTime a) eqn:Ht; [|done].
  destruct (a_performanceScore a <=? 100) eqn:Hp; [|done].
  destruct (0 <? Z.of_nat (String.length (a_ipfsHash a))) eqn:Hh; [|done].
  destruct (a_sectorTimes a) as [[s0 s1] s2] eqn:Hs.
  unfold checked_add, checked_mul.
  destruct (s0 + s1 <=? uint256_max); simpl; [|done].
  destruct (s0 + s1 + s2 <=? uint256_max) eqn:Hsum; simpl; [|done].
  destruct (a_lapTime a * 99 <=? uint256_max) eqn:Hmul; simpl; [|done].
  destruct (a_lapTime a * 99 / 100 <=? s0 + s1 + s2) eqn:Hlo; simpl; [|done].
  destruct (a_lapTime a * 101 <=? uint256_max) eqn:Hmul'; simpl; [|done].
  destruct (s0 + s1 + s2 <=? a_lapTime a * 101 / 100) eqn:Hhi; [|done].
  destruct (totalLaps s + 1 <=? uint256_max) eqn:Htot; simpl; [|done].
  intros _. apply Z.ltb_lt in Ht. apply Z.leb_le in Hp, Hlo, Hhi, Hmul', Hsum, Htot.
  repeat split; try lia.
  intros Heq. rewrite Heq in Hh. by vm_compute in Hh.
Qed.

Lemma fastest_after_record s n r :
  totalLaps s = Z.of_nat (length (lapNumbers s)) ->
  exists t,
    getFastestLapTime
      (mkState (<[n := r]> (laps s)) (lapNumbers s ++ [n]) (totalLaps s + 1) (owner s))
    = Ok t.
Proof.
  intros Ht. unfold getFastestLapTime; simpl.
  replace (totalLaps s + 1 =? 0) with false by (symmetry; apply Z.eqb_neq; lia).
  match goal with |- context [fastest_loop ?st ?k 0 ?f] =>
    destruct (fastest_loop_spec st k 0 f) as (t & Hrun & _) end.
  { simpl. rewrite length_app; simpl. lia. }
  by exists t.
Qed.

(** X9. In a reachable state with room for one more lap, a [recordLap]
    call with well-typed arguments succeeds exactly when the lap number is
    not yet recorded, the lap time is positive, the score is at most 100,
    the IPFS hash is not empty, the three sector times sum (without
    overflow) to between 99% and 101% of the lap time, rounded down, and
    [_lapTime * 101] fits in a uint256.  A call that panics does so with the
    arithmetic-overflow code 0x11, never with an array access out of
    bounds. *)
Theorem recordLap_succeeds_iff (s : State) (e : Env) (a : LapArgs) :
  reachable s -> wf_args a -> totalLaps s < uint256_max ->
  ((exists s' evs, recordLap e a s = Ok (s', evs)) <->
   lapRecordExists s (a_lapNumber a) = false /\ args_ok a) /\
  (forall code, recordLap e a s = Panic code -> code = 17).
Proof.
  intros Hreach Hwf Hroom. pose proof (inv_total _ (reachable_inv s Hreach)) as Ht.
  destruct (fastest_after_record s (a_lapNumber a)
              (mkLapRecord (a_lapNumber a) (a_lapTime a) (a_ipfsHash a)
                 (a_performanceScore a) (a_sectorTimes a)
                 (msg_sender e) (block_timestamp e) true) Ht) as (t & Hfast).
  split; [split|].
  - intros (s' & evs & Hrec). split.
    + by apply recordLap_Ok in Hrec as (? & _).
    + by apply recordLap_checks in Hrec as (? & _).
  - unfold lapRecordExists, args_ok, recordLap. intros [Hfresh Hargs].
    destruct Hwf as (_ & _ & _ & Hsect).
    rewrite Hfresh; simpl.
    destruct (a_sectorTimes a) as [[s0 s1] s2] eqn:Hs.
    destruct Hargs as (Hpos & Hscore & Hhash & Hsum & Hmul & Hlo & Hhi).
    destruct Hsect as ([? _] & [? _] & [? _]).
    replace (0 <? a_lapTime a) with true by (symmetry; apply Z.ltb_lt; lia).
    replace (a_performanceScore a <=? 100) with true
      by (symmetry; apply Z.leb_le; lia).
    replace (0 <? Z.of_nat (String.length (a_ipfsHash a))) with true.
    2:{ symmetry. apply Z.ltb_lt. destruct (a_ipfsHash a); [done|simpl; lia]. }
    unfold checked_add, checked_mul.
    replace (s0 + s1 <=? uint256_max) with true
      by (symmetry; apply Z.leb_le; lia). simpl.
    replace (s0 + s1 + s2 <=? uint256_max) with true
      by (symmetry; apply Z.leb_le; lia). simpl.
    replace (a_lapTime a * 99 <=? uint256_max) with true
      by (symmetry; apply Z.leb_le; lia). simpl.
    replace (a_lapTime a * 99 / 100 <=? s0 + s1 + s2) with true
      by (symmetry; apply Z.leb_le; lia). simpl.
    replace (a_lapTime a * 101 <=? uint256_max) with true
      by (symmetry; apply Z.leb_le; lia). simpl.
    replace (s0 + s1 + s2 <=? a_lapTime a * 101 / 100) with true
      by (symmetry; apply Z.leb_le; lia).
    replace (totalLaps s + 1 <=? uint256_max) with true
      by (symmetry; apply Z.leb_le; lia). simpl.
    rewrite Hfast; simpl. destruct (a_lapTime a <=? t); eauto.
  - intros code. unfold recordLap.
    destruct (exists_ (laps_at s (a_lapNumber a))); simpl; [done|].
    destruct (0 <? a_lapTime a); [|done].
    destruct (a_performanceScore a <=? 100); [|done].
    destruct (0 <? Z.of_nat (String.length (a_ipfsHash a))); [|done].
    destruct (a_sectorTimes a) as [[s0 s1] s2] eqn:Hs.
    unfold checked_add, checked_mul.
    destruct (s0 + s1 <=? uint256_max); simpl; [|by intros [= <-]].
    destruct (s0 + s1 + s2 <=? uint256_max); simpl; [|by intros [= <-]].
    destruct (a_lapTime a * 99 <=? uint256_max); simpl; [|by intros [= <-]].
    destruct (a_lapTime a * 99 / 100 <=? s0 + s1 + s2); simpl; [|done].
    destruct (a_lapTime a * 101 <=? uint256_max); simpl; [|by intros [= <-]].
    destruct (s0 + s1 + s2 <=? a_lapTime a * 101 / 100); [|done].
    destruct (totalLaps s + 1 <=? uint256_max); simpl; [|by intros [= <-]].
    rewrite Hfast; simpl. by destruct (a_lapTime a <=? t).
Qed.

Lemma recordLap_succeeds_iff_witness :
  ((exists s' evs, recordLap deployer lap2 session1 = Ok (s', evs)) <->
   lapRecordExists session1 (a_lapNumber lap2) = false /\ args_ok lap2) /\
  (forall code, recordLap deployer lap2 session1 = Panic code -> code = 17).
Proof.
  apply (recordLap_succeeds_iff session1 deployer lap2).
  - exact session1_reachable.
  - exact wf_lap2.
  - reflexivity.
Defined.

(** **** The average lap time *)

Lemma listed_positive s k :
  state_inv s -> k ∈ lapNumbers s -> 0 < lapTime (laps_at s k).
Proof.
  intros Hinv Hk. apply (inv_listed _ Hinv) in Hk.
  unfold laps_at in *. destruct (laps s !! k) as [r|] eqn:Hr; simpl in *; [|done].
  by destruct (inv_ok _ Hinv k r Hr Hk).
Qed.

Lemma sum_Z_nonneg l : Forall (fun x => 0 <= x) l -> 0 <= sum_Z l.
Proof. induction 1; simpl; [done|]. unfold sum_Z in *. simpl. lia. Qed.

Lemma sum_Z_lower l t :
  (forall x, x ∈ l -> t <= x) -> Z.of_nat (length l) * t <= sum_Z l.
Proof.
  induction l as [|x l IH]; intros H; [simpl; lia|].
  assert (t <= x) by (apply H; left).
  assert (Z.of_nat (length l) * t <= sum_Z l).
  { apply IH. intros y Hy. apply H. by right. }
  unfold sum_Z in *. simpl length. simpl foldr. lia.
Qed.

Lemma sum_Z_upper l :
  l <> [] -> exists x, x ∈ l /\ sum_Z l <= Z.of_nat (length l) * x.
Proof.
  induction l as [|x l IH]; [done|]. intros _.
  destruct l as [|y l].
  - exists x. split; [left|]. unfold sum_Z. simpl. lia.
  - destruct IH as (m & Hm & Hsum); [done|].
    remember (y :: l) as l' eqn:Hl'.
    assert (Hcons : sum_Z (x :: l') = x + sum_Z l') by done.
    assert (Hlen : Z.of_nat (length (x :: l')) = Z.of_nat (length l') + 1)
      by (simpl length; lia).
    rewrite Hcons, Hlen.
    destruct (Z_le_gt_dec x m).
    + exists m. split; [by right|]. lia.
    + exists x. split; [left|]. nia.
Qed.

Lemma average_loop_spec s n i acc :
  (i + n <= length (lapNumbers s))%nat -> 0 <= acc <= uint256_max ->
  (forall k, k ∈ lapNumbers s -> 0 <= lapTime (laps_at s k)) ->
  average_loop s n i acc =
    let total :=
      acc + sum_Z (lapTime <$> (laps_at s <$> take n (drop i (lapNumbers s)))) in
    if total <=? uint256_max then Ok total else Panic 17.
Proof.
  revert i acc. induction n as [|n IH]; intros i acc Hlen Hacc Hpos.
  - simpl. rewrite Z.add_0_r.
    by replace (acc <=? uint256_max) with true by (symmetry; apply Z.leb_le; lia).
  - destruct (lookup_lt_is_Some_2 (lapNumbers s) i) as [k Hk]; [lia|].
    cbn [average_loop]. rewrite (arr_get_Some _ _ _ Hk); simpl obind.
    rewrite (drop_S _ _ _ Hk). cbn [take]. rewrite !fmap_cons.
    change (sum_Z (lapTime (laps_at s k) :: ?l)) with (lapTime (laps_at s k) + sum_Z l).
    set (rest := sum_Z (lapTime <$> (laps_at s <$> take n (drop (S i) (lapNumbers s))))).
    assert (Hk0 : 0 <= lapTime (laps_at s k)).
    { apply Hpos. by eapply list_elem_of_lookup_2. }
    assert (Hrest : 0 <= rest).
    { apply sum_Z_nonneg, Forall_forall. intros x Hx.
      apply list_elem_of_fmap in Hx as (r & -> & Hr).
      apply list_elem_of_fmap in Hr as (k' & -> & Hk').
      apply Hpos. by apply subseteq_take, subseteq_drop in Hk'. }
    unfold checked_add.
    destruct (acc + lapTime (laps_at s k) <=? uint256_max) eqn:E; simpl obind.
    + apply Z.leb_le in E. rewrite IH by (lia || done). fold rest. simpl.
      by rewrite Z.add_assoc.
    + apply Z.leb_gt in E. simpl.
      by replace (acc + (lapTime (laps_at s k) + rest) <=? uint256_max) with false
        by (symmetry; apply Z.leb_gt; lia).
Qed.

(** X10. In a reachable state [getAverageLapTime] reverts when no lap is
    recorded; otherwise, when the sum of all recorded lap times fits in a
    uint256, it returns that sum divided by [totalLaps], rounded down - a
    value that is at least the fastest lap time and at most the time of some
    recorded lap - and when the sum does not fit it panics with the
    overflow code 0x11. *)
Theorem getAverageLapTime_spec (s : State) :
  reachable s ->
  (totalLaps s = 0 -> getAverageLapTime s = Revert "No laps recorded yet") /\
  (0 < totalLaps s -> total_time s <= uint256_max ->
     getAverageLapTime s = Ok (total_time s / totalLaps s) /\
     (forall t, getFastestLapTime s = Ok t -> t <= total_time s / totalLaps s) /\
     (exists r, r ∈ recorded s /\ total_time s / totalLaps s <= lapTime r)) /\
  (0 < totalLaps s -> uint256_max < total_time s ->
     getAverageLapTime s = Panic 17).
Proof.
  intros Hreach. pose proof (reachable_inv s Hreach) as Hinv.
  pose proof (inv_total _ Hinv) as Ht. pose proof uint256_max_pos as Hmax.
  assert (Hloop : average_loop s (Z.to_nat (totalLaps s)) 0 0 =
            if total_time s <=? uint256_max then Ok (total_time s) else Panic 17).
  { rewrite average_loop_spec; [|lia|lia|].
    - simpl. rewrite drop_0, Ht, Nat2Z.id, firstn_all. done.
    - intros k Hk. apply Z.lt_le_incl. by apply listed_positive. }
  assert (Hlen : Z.of_nat (length (lapTime <$> recorded s)) = totalLaps s).
  { unfold recorded. rewrite !length_fmap. lia. }
  unfold getAverageLapTime. split; [by intros ->|]. split.
  - intros Hsome Hfits.
    replace (0 <? totalLaps s) with true by (symmetry; apply Z.ltb_lt; lia).
    rewrite Hloop.
    replace (total_time s <=? uint256_max) with true
      by (symmetry; apply Z.leb_le; lia). simpl.
    split; [done|]. split.
    + intros t Hfast.
      destruct (fastest_run s Hinv) as (t' & Hrun & _ & Hall & _).
      rewrite Hfast in Hrun. injection Hrun as <-.
      apply Z.div_le_lower_bound; [lia|].
      rewrite <- Hlen. apply sum_Z_lower.
      intros x [r [-> Hr]]%list_elem_of_fmap. by apply Hall.
    + destruct (sum_Z_upper (lapTime <$> recorded s)) as (x & Hx & Hsum).
      { intros Hnil. rewrite Hnil in Hlen. simpl in Hlen. lia. }
      apply list_elem_of_fmap in Hx as (r & -> & Hr).
      exists r. split; [done|].
      apply Z.div_le_upper_bound; [lia|]. rewrite <- Hlen. exact Hsum.
  - intros Hsome Hover.
    replace (0 <? totalLaps s) with true by (symmetry; apply Z.ltb_lt; lia).
    rewrite Hloop.
    by replace (total_time s <=? uint256_max) with false
      by (symmetry; apply Z.leb_gt; lia).
Qed.

Lemma getAverageLapTime_spec_witness :
  (totalLaps session2 = 0 ->
   getAverageLapTime session2 = Revert "No laps recorded yet") /\
  (0 < totalLaps session2 -> total_time session2 <= uint256_max ->
     getAverageLapTime session2 = Ok (total_time session2 / totalLaps session2) /\
     (forall t, getFastestLapTime session2 = Ok t ->
        t <= total_time session2 / totalLaps session2) /\
     (exists r, r ∈ recorded session2 /\
        total_time session2 / totalLaps session2 <= lapTime r)) /\
  (0 < totalLaps session2 -> uint256_max < total_time session2 ->
     getAverageLapTime session2 = Panic 17).
Proof. apply (getAverageLapTime_spec session2). exact session2_reachable. Defined.

Example average_of_session2 : getAverageLapTime session2 = Ok 88345.
Proof. vm_compute. reflexivity. Qed.

(** **** Laps by recorder *)

Lemma reachable_total_le s : reachable s -> totalLaps s <= uint256_max.
Proof.
  induction 1 as [e | s e a s' evs _ _ _ Hrec].
  - simpl. pose proof uint256_max_pos. lia.
  - pose proof (recordLap_checks _ _ _ _ _ Hrec) as [_ Hroom].
    apply recordLap_Ok in Hrec as (_ & _ & _ & -> & _). simpl. lia.
Qed.

Lemma laps_of_length who l : (length (laps_of who l) <= length l)%nat.
Proof. unfold laps_of. apply length_filter. Qed.

Lemma recorder_loop_spec s who n i c :
  (i + n <= length (lapNumbers s))%nat -> c + Z.of_nat n <= uint256_max ->
  recorder_loop s who n i c =
    Ok (c + Z.of_nat (length (laps_of who
                                (laps_at s <$> take n (drop i (lapNumbers s)))))).
Proof.
  revert i c. induction n as [|n IH]; intros i c Hlen Hc.
  - simpl. by rewrite Z.add_0_r.
  - destruct (lookup_lt_is_Some_2 (lapNumbers s) i) as [k Hk]; [lia|].
    cbn [recorder_loop]. rewrite (arr_get_Some _ _ _ Hk); simpl obind.
    rewrite (drop_S _ _ _ Hk). cbn [take]. rewrite fmap_cons. unfold laps_of.
    destruct (Z.eqb_spec (recorder (laps_at s k)) who) as [Heq|Hne].
    + rewrite filter_cons_True by done. unfold checked_add.
      replace (c + 1 <=? uint256_max) with true
        by (symmetry; apply Z.leb_le; lia). simpl obind.
      rewrite IH by lia. f_equal. simpl length. unfold laps_of. lia.
    + rewrite filter_cons_False by done. simpl obind.
      rewrite IH by lia. done.
Qed.

Lemma laps_by_recorder_run s who :
  state_inv s -> totalLaps s <= uint256_max ->
  getLapsByRecorder s who = Ok (Z.of_nat (length (laps_of who (recorded s)))).
Proof.
  intros Hinv Hmax. pose proof (inv_total _ Hinv) as Ht.
  unfold getLapsByRecorder. rewrite recorder_loop_spec by lia.
  rewrite drop_0, Ht, Nat2Z.id, firstn_all. done.
Qed.

(** X11. In a reachable state [getLapsByRecorder] returns, without
    reverting, the number of recorded laps whose recorder is the given
    address, which is at most [totalLaps]; a successful [recordLap] raises
    the sender's count by one and leaves every other address's count as it
    was. *)
Theorem getLapsByRecorder_counts (s : State) (who : Z) :
  reachable s ->
  getLapsByRecorder s who = Ok (Z.of_nat (length (laps_of who (recorded s)))) /\
  Z.of_nat (length (laps_of who (recorded s))) <= totalLaps s /\
  (forall e a s' evs, recordLap e a s = Ok (s', evs) ->
     getLapsByRecorder s' who =
       Ok (Z.of_nat (length (laps_of who (recorded s)))
           + (if decide (who = msg_sender e) then 1 else 0))).
Proof.
  intros Hreach. pose proof (reachable_inv s Hreach) as Hinv.
  pose proof (reachable_total_le s Hreach) as Hmax.
  split; [by apply laps_by_recorder_run|]. split.
  - pose proof (laps_of_length who (recorded s)) as Hle.
    unfold recorded in Hle at 2. rewrite length_fmap in Hle.
    rewrite (inv_total _ Hinv). lia.
  - intros e a s' evs Hrec.
    pose proof (recordLap_inv _ _ _ _ _ Hinv Hrec) as Hinv'.
    pose proof (recordLap_checks _ _ _ _ _ Hrec) as [_ Hroom].
    apply recordLap_Ok in Hrec as (Hfresh & _ & _ & Hs' & _).
    rewrite laps_by_recorder_run; [|done|rewrite Hs'; simpl; lia].
    f_equal. rewrite Hs', (recorded_after s _ _ _ _ Hinv Hfresh).
    unfold laps_of. rewrite filter_app, length_app.
    case_decide as Hwho.
    + rewrite filter_cons_True by done. simpl. lia.
    + rewrite filter_cons_False by (simpl; congruence). simpl. lia.
Qed.

Lemma getLapsByRecorder_counts_witness :
  getLapsByRecorder session2 1000
  = Ok (Z.of_nat (length (laps_of 1000 (recorded session2)))) /\
  Z.of_nat (length (laps_of 1000 (recorded session2))) <= totalLaps session2 /\
  (forall e a s' evs, recordLap e a session2 = Ok (s', evs) ->
     getLapsByRecorder s' 1000 =
       Ok (Z.of_nat (length (laps_of 1000 (recorded session2)))
           + (if decide (1000 = msg_sender e) then 1 else 0))).
Proof. apply (getLapsByRecorder_counts session2 1000). exact session2_reachable. Defined.

Example laps_by_deployer : getLapsByRecorder session2 1000 = Ok 2.
Proof. vm_compute. reflexivity. Qed.

Example laps_by_stranger : getLapsByRecorder session2 2000 = Ok 0.
Proof. vm_compute. reflexivity. Qed.

(** **** Several laps at once *)

Lemma multiple_loop_spec s lapNos n i records :
  (i + n <= length lapNos)%nat -> (i + n <= length records)%nat ->
  exists records',
    multiple_loop s lapNos n i records = Ok records' /\
    length records' = length records /\
    forall j, records' !! j =
      if decide (i <= j < i + n)%nat then
        k ← lapNos !! j;
        if exists_ (laps_at s k) then Some (laps_at s k) else records !! j
      else records !! j.
Proof.
  revert i records. induction n as [|n IH]; intros i records Hln Hrec.
  - exists records. repeat split; [done..|]. intros j. case_decide; [lia|done].
  - destruct (lookup_lt_is_Some_2 lapNos i) as [k Hk]; [lia|].
    cbn [multiple_loop]. rewrite (arr_get_Some _ _ _ Hk); simpl obind.
    set (records1 := if exists_ (laps_at s k)
                     then <[i := laps_at s k]> records else records).
    assert (Hstep : (if exists_ (laps_at s k)
                     then arr_set records i (laps_at s k)
                     else Ok records) = Ok records1).
    { unfold records1. destruct (exists_ (laps_at s k)); [|done].
      by rewrite arr_set_lt by lia. }
    rewrite Hstep; simpl obind.
    assert (Hlen1 : length records1 = length records).
    { unfold records1. destruct (exists_ (laps_at s k)); [|done].
      by rewrite length_insert. }
    destruct (IH (S i) records1) as (records' & Hrun & Hlen & Hget); [lia..|].
    exists records'. split; [done|]. split; [by rewrite Hlen|].
    intros j. rewrite Hget.
    destruct (decide (j = i)) as [->|Hne].
    + rewrite decide_False by lia. rewrite decide_True by lia.
      rewrite Hk; simpl. unfold records1.
      destruct (exists_ (laps_at s k)); [|done].
      by rewrite list_lookup_insert_eq by lia.
    + assert (Hsame : records1 !! j = records !! j).
      { unfold records1. destruct (exists_ (laps_at s k)); [|done].
        by rewrite list_lookup_insert_ne. }
      repeat case_decide; try lia; by rewrite ?Hsame.
Qed.

(** X12. [getMultipleLaps] never reverts, whatever lap numbers it is
    given: it returns one record per requested number, in the order asked -
    the record [getLap] returns where [getLap] succeeds and the all-zero
    record (with [exists = false]) where [getLap] reverts.  Given every lap
    number of a reachable state, it returns the recorded laps in recording
    order. *)
Theorem getMultipleLaps_total (s : State) (lapNos : list Z) :
  exists records,
    getMultipleLaps s lapNos = Ok records /\
    length records = length lapNos /\
    (forall i n r, lapNos !! i = Some n -> getLap s n = Ok r ->
       records !! i = Some r) /\
    (forall i n, lapNos !! i = Some n -> getLap s n = Revert "Lap does not exist" ->
       records !! i = Some zeroRecord) /\
    (reachable s -> lapNos = getAllLapNumbers s -> records = recorded s).
Proof.
  unfold getMultipleLaps.
  destruct (multiple_loop_spec s lapNos (length lapNos) 0
              (new_array (length lapNos))) as (records & Hrun & Hlen & Hget).
  { lia. } { unfold new_array. rewrite length_replicate. lia. }
  unfold new_array in Hlen, Hget. rewrite length_replicate in Hlen.
  assert (Hat : forall i n, lapNos !! i = Some n ->
            records !! i = Some (if exists_ (laps_at s n) then laps_at s n
                                 else zeroRecord)).
  { intros i n Hi. pose proof (lookup_lt_Some _ _ _ Hi) as Hlt.
    rewrite Hget, decide_True by lia. rewrite Hi; simpl.
    destruct (exists_ (laps_at s n)); [done|].
    by apply lookup_replicate_2. }
  exists records. split; [done|]. split; [done|]. split; [|split].
  - intros i n r Hi [Hex ->]%getLap_Ok. by rewrite (Hat i n Hi), Hex.
  - intros i n Hi Hrev. rewrite (Hat i n Hi).
    unfold getLap in Hrev. by destruct (exists_ (laps_at s n)).
  - intros Hreach ->. unfold getAllLapNumbers in *.
    pose proof (reachable_inv s Hreach) as Hinv.
    apply list_eq. intros i. unfold recorded. rewrite list_lookup_fmap.
    destruct (lapNumbers s !! i) as [n|] eqn:Hi; simpl.
    + rewrite (Hat i n Hi).
      assert (exists_ (laps_at s n) = true) as ->; [|done].
      by eapply (inv_listed _ Hinv), list_elem_of_lookup_2.
    + apply lookup_ge_None_2. rewrite Hlen. by apply lookup_ge_None_1.
Qed.

Example multiple_laps_of_session2 :
  getMultipleLaps session2 [2; 7; 1]
  = Ok [laps_at session2 2; zeroRecord; laps_at session2 1].
Proof. vm_compute. reflexivity. Qed.

(** **** A longer leaderboard extends a shorter one *)

(** Later rounds of the outer loop leave the cells of [leaderboard] below
    [i] alone. *)
Lemma sort_loop_keeps total n i all lb lb' :
  sort_loop total n i all lb = Ok lb' ->
  length lb' = length lb /\ forall j, (j < i)%nat -> lb' !! j = lb !! j.
Proof.
  revert i all lb. induction n as [|n IH]; intros i all lb; cbn [sort_loop].
  - by intros [= ->].
  - destruct (min_loop all (total - (i + 1)) (i + 1) i) as [m| |]; simpl; [|done..].
    destruct (if (m =? i)%nat then Ok all else swap all i m) as [all1| |];
      simpl; [|done..].
    destruct (arr_get all1 i) as [ai| |]; simpl; [|done..].
    unfold arr_set. destruct (i <? length lb)%nat eqn:E; simpl; [|done].
    intros Hrun. apply IH in Hrun as [Hlen Hget].
    rewrite length_insert in Hlen. split; [done|].
    intros j Hj. rewrite Hget by lia. by rewrite list_lookup_insert_ne by lia.
Qed.

(** [n] rounds and [n + k] rounds fill the first [n] cells alike. *)
Lemma sort_loop_agree total n k i all lb1 lb2 r1 r2 :
  sort_loop total n i all lb1 = Ok r1 ->
  sort_loop total (n + k) i all lb2 = Ok r2 ->
  (forall j, (j < i)%nat -> lb1 !! j = lb2 !! j) ->
  forall j, (j < i + n)%nat -> r1 !! j = r2 !! j.
Proof.
  revert i all lb1 lb2. induction n as [|n IH]; intros i all lb1 lb2.
  - simpl. intros [= ->] Hrun Hsame j Hj.
    apply sort_loop_keeps in Hrun as [_ Hget].
    rewrite Hget by lia. apply Hsame. lia.
  - cbn [sort_loop Nat.add].
    destruct (min_loop all (total - (i + 1)) (i + 1) i) as [m| |]; simpl; [|done..].
    destruct (if (m =? i)%nat then Ok all else swap all i m) as [all1| |];
      simpl; [|done..].
    destruct (arr_get all1 i) as [ai| |]; simpl; [|done..].
    unfold arr_set.
    destruct (i <? length lb1)%nat eqn:E1; simpl; [|done].
    destruct (i <? length lb2)%nat eqn:E2; simpl; [|done].
    apply Nat.ltb_lt in E1, E2.
    intros Hrun1 Hrun2 Hsame j Hj.
    apply (IH (S i) all1 (<[i := ai]> lb1) (<[i := ai]> lb2) Hrun1 Hrun2); [|lia].
    intros j' Hj'. destruct (decide (j' = i)) as [->|Hne].
    + by rewrite !list_lookup_insert_eq by lia.
    + rewrite !list_lookup_insert_ne by done. apply Hsame. lia.
Qed.

Lemma prefix_by_lookup {A} (l1 l2 : list A) :
  (length l1 <= length l2)%nat ->
  (forall j, (j < length l1)%nat -> l1 !! j = l2 !! j) ->
  l1 `prefix_of` l2.
Proof.
  intros Hlen Hget. exists (drop (length l1) l2).
  rewrite <- (take_drop (length l1) l2) at 1. f_equal.
  apply list_eq. intros j. destruct (decide (j < length l1)%nat).
  - rewrite lookup_take_lt by done. symmetry. by apply Hget.
  - rewrite !lookup_ge_None_2; [done|lia|rewrite length_take; lia].
Qed.

(** X13. In a reachable state, asking [getLeaderboard] for more laps only
    extends the board: for counts [count <= count'] between 1 and 50 both
    calls return, and the shorter leaderboard is the front of the longer
    one, record for record. *)
Theorem getLeaderboard_prefix (s : State) (count count' : Z) :
  reachable s -> 1 <= count -> count <= count' -> count' <= 50 ->
  exists lb lb',
    getLeaderboard s count = Ok lb /\
    getLeaderboard s count' = Ok lb' /\
    lb `prefix_of` lb'.
Proof.
  intros Hreach H1 Hle H50. pose proof (inv_total _ (reachable_inv s Hreach)) as Ht.
  destruct (leaderboard_run s Ht count) as (lb & _ & Hrun & Hlen & _); [lia|].
  destruct (leaderboard_run s Ht count') as (lb' & _ & Hrun' & Hlen' & _); [lia|].
  exists lb, lb'. split; [done|]. split; [done|].
  unfold getLeaderboard in Hrun, Hrun'.
  replace ((0 <? count) && (count <=? 50)) with true in Hrun
    by (symmetry; apply andb_true_iff; split; [apply Z.ltb_lt|apply Z.leb_le]; lia).
  replace ((0 <? count') && (count' <=? 50)) with true in Hrun'
    by (symmetry; apply andb_true_iff; split; [apply Z.ltb_lt|apply Z.leb_le]; lia).
  rewrite (load_all s Ht) in Hrun, Hrun'. simpl in Hrun, Hrun'.
  set (rc := Z.to_nat (if totalLaps s <? count then totalLaps s else count)) in *.
  set (rc' := Z.to_nat (if totalLaps s <? count' then totalLaps s else count')) in *.
  assert (Hrc : (rc <= rc')%nat).
  { unfold rc, rc'.
    destruct (totalLaps s <? count) eqn:E; destruct (totalLaps s <? count') eqn:E';
      try apply Z.ltb_lt in E; try apply Z.ltb_ge in E;
      try apply Z.ltb_lt in E'; try apply Z.ltb_ge in E'; lia. }
  assert (Hl : length lb = rc).
  { apply sort_loop_keeps in Hrun as [-> _].
    unfold new_array. by rewrite length_replicate. }
  assert (Hl' : length lb' = rc').
  { apply sort_loop_keeps in Hrun' as [-> _].
    unfold new_array. by rewrite length_replicate. }
  apply prefix_by_lookup; [lia|].
  intros j Hj.
  replace rc' with (rc + (rc' - rc))%nat in Hrun' by lia.
  apply (sort_loop_agree _ _ _ _ _ _ _ _ _ Hrun Hrun'); [intros; lia|lia].
Qed.

Lemma getLeaderboard_prefix_witness :
  exists lb lb',
    getLeaderboard session2 1 = Ok lb /\
    getLeaderboard session2 5 = Ok lb' /\
    lb `prefix_of` lb'.
Proof.
  apply (getLeaderboard_prefix session2 1 5); [exact session2_reachable|lia..].
Defined.

(** **** The head of the leaderboard and [getFastestLapNumber] *)

(** The inner loop keeps the first index of a minimum: every candidate
    before the index it returns is strictly slower. *)
Lemma min_loop_first all n j m m' :
  (m < j)%nat -> (j + n <= length all)%nat ->
  min_loop all n j m = Ok m' ->
  forall k x y, (k = m \/ (j <= k < j + n)%nat) -> (k < m')%nat ->
    all !! k = Some x -> all !! m' = Some y -> lapTime y < lapTime x.
Proof.
  revert j m. induction n as [|n IH]; intros j m Hm Hlen; simpl.
  - intros [= <-] k x y [->|?] Hk; lia.
  - destruct (lookup_lt_is_Some_2 all j) as [aj Haj]; [lia|].
    destruct (lookup_lt_is_Some_2 all m) as [am Ham]; [lia|].
    rewrite (arr_get_Some _ _ _ Haj), (arr_get_Some _ _ _ Ham); simpl.
    set (m1 := if lapTime aj <? lapTime am then j else m).
    assert (Hm1 : (m1 < S j)%nat) by (unfold m1; destruct (_ <? _); lia).
    intros Hrun k x y Hk Hkm Hx Hy.
    pose proof (IH (S j) m1 Hm1 ltac:(lia) Hrun) as Hfirst.
    destruct (min_loop_spec all n (S j) m1 Hm1 ltac:(lia))
      as (m2 & Hrun2 & Hwhere & Hmin).
    rewrite Hrun in Hrun2. injection Hrun2 as <-.
    destruct (lookup_lt_is_Some_2 all m1) as [a1 Ha1].
    { unfold m1. destruct (_ <? _); lia. }
    pose proof (Hmin m1 a1 y (or_introl eq_refl) Ha1 Hy) as Hle1.
    unfold m1 in Ha1, Hwhere, Hfirst.
    destruct (lapTime aj <? lapTime am) eqn:E.
    + apply Z.ltb_lt in E. simplify_eq.
      destruct Hk as [->|Hk].
      * simplify_eq. lia.
      * destruct (decide (k = j)) as [->|Hne].
        -- apply (Hfirst j x y); [by left|done..].
        -- apply (Hfirst k x y); [right; lia|done..].
    + apply Z.ltb_ge in E. simplify_eq.
      destruct Hk as [->|Hk].
      * apply (Hfirst m x y); [by left|done..].
      * destruct (decide (k = j)) as [->|Hne].
        -- simplify_eq.
           assert (lapTime y < lapTime am); [|lia].
           apply (Hfirst m am y); [by left|lia|done..].
        -- apply (Hfirst k x y); [right; lia|done..].
Qed.

(** The first round of the outer loop puts the first fastest lap of
    [allLaps] into [leaderboard[0]], where it stays. *)
Lemma sort_loop_head total n all lb lb' :
  length all = total -> (0 < total)%nat ->
  sort_loop total (S n) 0 all lb = Ok lb' ->
  exists m r, all !! m = Some r /\ lb' !! 0%nat = Some r /\
    (forall k x, all !! k = Some x -> lapTime r <= lapTime x) /\
    (forall k x, (k < m)%nat -> all !! k = Some x -> lapTime r < lapTime x).
Proof.
  intros Hlen Htotal. cbn [sort_loop].
  destruct (min_loop_spec all (total - (0 + 1)) (0 + 1) 0)
    as (m & Hmin & Hwhere & Hleast); [lia..|].
  pose proof (min_loop_first all (total - (0 + 1)) (0 + 1) 0 m
                ltac:(lia) ltac:(lia) Hmin) as Hfirst.
  rewrite Hmin; simpl.
  destruct (lookup_lt_is_Some_2 all 0) as [a0 Ha0]; [lia|].
  destruct (lookup_lt_is_Some_2 all m) as [am Ham]; [lia|].
  assert (Hall1 : exists all1,
            (if (m =? 0)%nat then Ok all else swap all 0 m) = Ok all1 /\
            all1 !! 0%nat = Some am).
  { destruct (m =? 0)%nat eqn:E.
    - apply Nat.eqb_eq in E as ->. exists all. split; [done|congruence].
    - apply Nat.eqb_neq in E. eexists. split; [apply swap_Ok; done || lia|].
      rewrite list_lookup_insert_ne by lia.
      apply list_lookup_insert_eq. lia. }
  destruct Hall1 as (all1 & -> & Hhead); simpl.
  rewrite (arr_get_Some _ _ _ Hhead); simpl.
  unfold arr_set. destruct (0 <? length lb)%nat eqn:E; simpl; [|done].
  apply Nat.ltb_lt in E.
  intros Hrun. apply sort_loop_keeps in Hrun as [_ Hget].
  exists m, am. split; [done|]. split.
  { rewrite Hget by lia. by apply list_lookup_insert_eq. }
  split.
  - intros k x Hx. apply (Hleast k x am); [|done..].
    apply lookup_lt_Some in Hx. lia.
  - intros k x Hk Hx. apply (Hfirst k x am); [lia|done..].
Qed.

(** X18. In a reachable state with at least one lap, the first record of
    [getLeaderboard count], for any count from 1 to 50, is the lap whose
    number [getFastestLapNumber] returns: both break a tie between equally
    fast laps in favour of the lap recorded first. *)
Theorem leaderboard_head_number (s : State) (count : Z) :
  reachable s -> 1 <= count <= 50 -> 0 < totalLaps s ->
  exists r lb,
    getLeaderboard s count = Ok (r :: lb) /\
    getFastestLapNumber s = Ok (lapNumber r) /\
    getLap s (lapNumber r) = Ok r.
Proof.
  intros Hreach Hcount Hsome. pose proof (reachable_inv s Hreach) as Hinv.
  pose proof (inv_total _ Hinv) as Ht.
  destruct (leaderboard_run s Ht count Hcount) as (lb & _ & Hrun & Hlen & _).
  destruct lb as [|r lb]; [simpl in Hlen; lia|].
  exists r, lb. split; [done|].
  (* the head of the leaderboard *)
  unfold getLeaderboard in Hrun.
  replace ((0 <? count) && (count <=? 50)) with true in Hrun
    by (symmetry; apply andb_true_iff; split; [apply Z.ltb_lt|apply Z.leb_le]; lia).
  rewrite (load_all s Ht) in Hrun. simpl in Hrun.
  destruct (Z.to_nat (if totalLaps s <? count then totalLaps s else count))
    as [|n] eqn:Hrc.
  { destruct (totalLaps s <? count); lia. }
  apply sort_loop_head in Hrun as (m & r' & Hm & Hhead & Hleast & Hfirst);
    [|unfold recorded; rewrite length_fmap; lia|lia].
  simpl in Hhead. injection Hhead as ->.
  unfold recorded in Hm. rewrite list_lookup_fmap in Hm.
  destruct (lapNumbers s !! m) as [nm|] eqn:Hnm; [|done].
  simpl in Hm. injection Hm as <-.
  assert (Hexists : exists_ (laps_at s nm) = true)
    by by eapply (inv_listed _ Hinv), list_elem_of_lookup_2.
  rewrite (inv_numbered _ Hinv nm Hexists).
  split; [|by apply getLap_Ok].
  (* the lap [getFastestLapNumber] picks *)
  unfold getFastestLapNumber.
  replace (0 <? totalLaps s) with true by (symmetry; apply Z.ltb_lt; lia).
  simpl.
  destruct (fastest_number_loop_spec s (Z.to_nat (totalLaps s)) 0 0 uint256_max)
    as (n' & Hrun' & Hcase); [lia|].
  rewrite Hrun'. f_equal.
  destruct Hcase as [[_ Hge]|(j & Hj & Hjn & _ & Hbefore & Hafter)].
  { exfalso. pose proof (Hge m nm ltac:(apply lookup_lt_Some in Hnm; lia) Hnm).
    pose proof (inv_bounded _ Hinv nm). pose proof uint256_max_pos. lia. }
  assert (Hat : forall k nk, lapNumbers s !! k = Some nk ->
            recorded s !! k = Some (laps_at s nk)).
  { intros k nk Hk. unfold recorded. by rewrite list_lookup_fmap, Hk. }
  destruct (Nat.lt_trichotomy m j) as [Hlt|[->|Hgt]].
  - pose proof (Hbefore m nm ltac:(lia) Hnm).
    pose proof (Hleast j _ (Hat j n' Hjn)). lia.
  - congruence.
  - pose proof (Hfirst j _ Hgt (Hat j n' Hjn)).
    pose proof (Hafter m nm ltac:(apply lookup_lt_Some in Hnm; lia) Hnm). lia.
Qed.

Lemma leaderboard_head_number_witness :
  exists r lb,
    getLeaderboard session2 3 = Ok (r :: lb) /\
    getFastestLapNumber session2 = Ok (lapNumber r) /\
    getLap session2 (lapNumber r) = Ok r.
Proof.
  apply (leaderboard_head_number session2 3).
  - exact session2_reachable.
  - lia.
  - reflexivity.
Defined.

End RegistryFacts.

(** * Properties of the sector banner *)

Module ChartsFacts.
Import Telemetry Charts.
#[local] Open Scope Q_scope.

Lemma Math_max_same t : Math_max t t = t.
Proof. unfold Math_max. by destruct (t ?= t). Qed.

Lemma Math_min_le t x : t <= x -> Math_min t x = t.
Proof.
  intros Hle. unfold Math_min. destruct (x ?= t) eqn:E; try done.
  apply Qlt_alt in E. by apply Qlt_not_le in E.
Qed.

Lemma min_timestamp_first t ts : Forall (Qle t) ts -> min_timestamp t ts = t.
Proof.
  unfold min_timestamp. induction 1 as [|x ts Hx _ IH]; simpl; [done|].
  by rewrite Math_min_le.
Qed.

Lemma Math_max_cases a b :
  (Math_max a b = a \/ Math_max a b = b) /\ a <= Math_max a b /\ b <= Math_max a b.
Proof.
  unfold Math_max. destruct (a ?= b) eqn:E.
  - apply Qeq_alt in E. split; [by left|]. split; [apply Qle_refl|]. rewrite E. apply Qle_refl.
  - apply Qlt_alt in E. split; [by right|]. split; [by apply Qlt_le_weak|apply Qle_refl].
  - apply Qgt_alt in E. split; [by left|]. split; [apply Qle_refl|by apply Qlt_le_weak].
Qed.

(** [max_timestamp] is one of the timestamps and none is larger. *)
Lemma max_timestamp_greatest t ts :
  max_timestamp t ts ∈ t :: ts /\
  forall x, x ∈ t :: ts -> x <= max_timestamp t ts.
Proof.
  unfold max_timestamp. revert t. induction ts as [|u ts IH]; intros t; simpl.
  - split; [left|]. intros x ->%list_elem_of_singleton. apply Qle_refl.
  - destruct (IH (Math_max t u)) as [Hin Hge].
    destruct (Math_max_cases t u) as (Hcase & Ht & Hu).
    split.
    + apply elem_of_cons in Hin as [->|Hin].
      * destruct Hcase as [-> | ->]; [left|right; left].
      * right; by right.
    + intros x Hx. apply elem_of_cons in Hx as [->|Hx].
      * eapply Qle_trans; [exact Ht|]. apply Hge. left.
      * apply elem_of_cons in Hx as [->|Hx].
        -- eapply Qle_trans; [exact Hu|]. apply Hge. left.
        -- apply Hge. by right.
Qed.

(** The entry of sector [k] only sees the points of sector [k]. *)
Lemma fold_sector_step_lookup points acc k :
  fold_left sector_step points acc !! k
  = fold_left span_extend (timestamp <$> in_sector k points) (acc !! k).
Proof.
  revert acc. induction points as [|p points IH]; intros acc; simpl; [done|].
  rewrite IH. unfold in_sector. rewrite filter_cons.
  unfold sector_step at 1. case_decide as Hk; simpl.
  - rewrite <- Hk, lookup_insert_eq. unfold span_extend at 2. by destruct (acc !! sector p).
  - by rewrite lookup_insert_ne.
Qed.

Lemma fold_span_extend ts s e :
  fold_left span_extend ts (Some (mkSpan s e))
  = Some (mkSpan s (fold_left Math_max ts e)).
Proof. revert e. induction ts as [|t ts IH]; intros e; simpl; [done|apply IH]. Qed.

Lemma sectorInfo_present points k p ps :
  in_sector k points = p :: ps ->
  sectorInfo points !! k
  = Some (mkSpan (timestamp p) (max_timestamp (timestamp p) (timestamp <$> ps))).
Proof.
  intros Hk. unfold sectorInfo. rewrite fold_sector_step_lookup, Hk; simpl.
  rewrite lookup_empty; unfold span_extend at 2; simpl.
  by rewrite Math_max_same, fold_span_extend.
Qed.

Lemma sectorInfo_absent points k :
  in_sector k points = [] -> sectorInfo points !! k = None.
Proof.
  intros Hk. unfold sectorInfo. rewrite fold_sector_step_lookup, Hk. apply lookup_empty.
Qed.

#[local] Instance timestamp_le_trans :
  Transitive (fun p q : TelemetryDataPoint => timestamp p <= timestamp q).
Proof. intros p q r. apply Qle_trans. Qed.

Lemma StronglySorted_filter {A} (R : relation A) (P : A -> Prop)
    `{!forall x, Decision (P x)} (l : list A) :
  StronglySorted R l -> StronglySorted R (filter P l).
Proof.
  induction 1 as [|x l _ IH Hx]; [constructor|].
  rewrite filter_cons. case_decide; [|done].
  constructor; [done|].
  rewrite Forall_forall in Hx |- *.
  intros y [_ Hy]%list_elem_of_filter. by apply Hx.
Qed.

Lemma in_sector_first_least points k p ps :
  timestamp_ordered points -> in_sector k points = p :: ps ->
  Forall (Qle (timestamp p)) (timestamp <$> ps).
Proof.
  intros Hsorted Hk.
  apply Sorted_StronglySorted in Hsorted; [|apply timestamp_le_trans].
  apply (StronglySorted_filter _ (fun p => sector p = k)) in Hsorted.
  fold (in_sector k points) in Hsorted. rewrite Hk in Hsorted.
  apply StronglySorted_cons in Hsorted as [Hall _].
  by apply Forall_fmap.
Qed.

(** C5. For a timestamp-ordered sample list, the segmenter groups the
    samples by their sector field: a sector present in the data gets the
    duration max(timestamp) - min(timestamp) over its samples (its span
    starts at a timestamp of the sector that none undercuts and ends at one
    that none exceeds), a sector with exactly one sample gets a duration
    equal to 0, and a sector absent from the data gets no entry. *)
Theorem sectorInfo_duration (points : list TelemetryDataPoint) (k : Z) :
  timestamp_ordered points ->
  match sector_duration_spec points k with
  | Some d =>
      exists info, sectorInfo points !! k = Some info /\
        end_ info - start info = d /\ duration points k = d
  | None => sectorInfo points !! k = None
  end /\
  (forall info, sectorInfo points !! k = Some info ->
     start info ∈ timestamp <$> in_sector k points /\
     end_ info ∈ timestamp <$> in_sector k points /\
     forall t, t ∈ timestamp <$> in_sector k points ->
       start info <= t <= end_ info) /\
  (forall p, in_sector k points = [p] ->
     exists info, sectorInfo points !! k = Some info /\
       end_ info - start info == 0).
Proof.
  intros Hsorted. split; [|split].
  2:{ intros info Hinfo.
      destruct (in_sector k points) as [|p ps] eqn:Hk.
      { by rewrite (sectorInfo_absent _ _ Hk) in Hinfo. }
      rewrite (sectorInfo_present _ _ _ _ Hk) in Hinfo. injection Hinfo as <-.
      rewrite fmap_cons. cbn [start end_].
      destruct (max_timestamp_greatest (timestamp p) (timestamp <$> ps)) as [Hin Hge].
      split; [left|]. split; [done|]. intros t Ht. split; [|by apply Hge].
      apply elem_of_cons in Ht as [->|Ht]; [apply Qle_refl|].
      pose proof (in_sector_first_least _ _ _ _ Hsorted Hk) as Hall.
      rewrite Forall_forall in Hall. by apply Hall. }
  - unfold sector_duration_spec.
    destruct (in_sector k points) as [|p ps] eqn:Hk.
    + by apply sectorInfo_absent.
    + rewrite fmap_cons.
      pose proof (sectorInfo_present _ _ _ _ Hk) as Hinfo.
      eexists. split; [exact Hinfo|]. cbn [end_ start].
      rewrite (min_timestamp_first _ _ (in_sector_first_least _ _ _ _ Hsorted Hk)).
      split; [done|]. unfold duration. by rewrite Hinfo.
  - intros p Hk. pose proof (sectorInfo_present _ _ _ _ Hk) as Hinfo.
    eexists. split; [exact Hinfo|]. simpl. unfold max_timestamp; simpl. ring.
Qed.

Lemma short_lap_ordered : timestamp_ordered short_lap.
Proof.
  unfold timestamp_ordered, short_lap.
  repeat (constructor; try (unfold Qle; simpl; lia)).
Qed.

Lemma sectorInfo_duration_witness :
  timestamp_ordered short_lap /\
  (match sector_duration_spec short_lap 1 with
   | Some d =>
       exists info, sectorInfo short_lap !! 1%Z = Some info /\
         end_ info - start info = d /\ duration short_lap 1 = d
   | None => sectorInfo short_lap !! 1%Z = None
   end /\
   (forall info, sectorInfo short_lap !! 1%Z = Some info ->
      start info ∈ timestamp <$> in_sector 1 short_lap /\
      end_ info ∈ timestamp <$> in_sector 1 short_lap /\
      forall t, t ∈ timestamp <$> in_sector 1 short_lap ->
        start info <= t <= end_ info) /\
   (forall p, in_sector 1 short_lap = [p] ->
      exists info, sectorInfo short_lap !! 1%Z = Some info /\
        end_ info - start info == 0)).
Proof.
  split; [exact short_lap_ordered|].
  apply (sectorInfo_duration short_lap 1). exact short_lap_ordered.
Defined.

Example banner_short_lap :
  Qred <$> sector_banner short_lap = Qred <$> [29.145; 0; 0].
Proof. vm_compute. reflexivity. Qed.

Example sector3_has_no_entry : sectorInfo short_lap !! 3%Z = None.
Proof. vm_compute. reflexivity. Qed.

(** Out of timestamp order the span starts at the first sample seen, not
    at the earliest one. *)
Example banner_shuffled_lap :
  Qred (duration shuffled_lap 1) = 0 /\
  Qred <$> sector_duration_spec shuffled_lap 1 = Some 3.
Proof. vm_compute. split; reflexivity. Qed.

(** X4. Whatever the order of the samples, [sectorInfo] holds an entry
    for exactly the sectors that occur in the data; the entry of a sector
    starts at the timestamp of the sector's first sample in the list and
    ends at the largest timestamp among the sector's samples; the banner
    shows 0 for a sector without entry. *)
Theorem sectorInfo_spans (points : list TelemetryDataPoint) (k : Z) :
  match in_sector k points with
  | [] => sectorInfo points !! k = None /\ duration points k = 0
  | p :: ps =>
      sectorInfo points !! k
      = Some (mkSpan (timestamp p)
                (max_timestamp (timestamp p) (timestamp <$> ps)))
  end /\
  (is_Some (sectorInfo points !! k) <-> k ∈ sector <$> points).
Proof.
  assert (Hin : k ∈ sector <$> points <-> in_sector k points <> []).
  { unfold in_sector. rewrite list_elem_of_fmap. split.
    - intros (p & -> & Hp) Hnil.
      by apply (filter_nil_not_elem_of _ _ p) in Hnil.
    - intros Hne. destruct (filter _ points) as [|p ps] eqn:Hf; [done|].
      assert (Hp : p ∈ filter (fun p => sector p = k) points)
        by (rewrite Hf; left).
      apply list_elem_of_filter in Hp as [Hk Hp]. by exists p. }
  destruct (in_sector k points) as [|p ps] eqn:Hk.
  - pose proof (sectorInfo_absent _ _ Hk) as Hnone.
    split; [split; [done|]|].
    + unfold duration. by rewrite Hnone.
    + rewrite Hnone, Hin. split; [by intros [? ?]|done].
  - pose proof (sectorInfo_present _ _ _ _ Hk) as Hsome.
    split; [done|]. rewrite Hsome, Hin. split; [done|by eexists].
Qed.

(** **** The spans of the sectors along the lap *)

#[local] Instance sector_le_trans :
  Transitive (fun p q : TelemetryDataPoint => (sector p <= sector q)%Z).
Proof. intros p q r. apply Z.le_trans. Qed.

(** An entry of [sectorInfo] starts and ends at samples of its sector. *)
Lemma span_ends points k info :
  sectorInfo points !! k = Some info ->
  exists p q, p ∈ points /\ q ∈ points /\ sector p = k /\ sector q = k /\
    start info = timestamp p /\ end_ info = timestamp q /\
    timestamp p <= timestamp q.
Proof.
  intros Hinfo. destruct (in_sector k points) as [|p ps] eqn:Hk.
  { by rewrite (sectorInfo_absent _ _ Hk) in Hinfo. }
  rewrite (sectorInfo_present _ _ _ _ Hk) in Hinfo. injection Hinfo as <-.
  cbn [start end_].
  destruct (max_timestamp_greatest (timestamp p) (timestamp <$> ps)) as [Hin Hge].
  rewrite <- fmap_cons, <- Hk in Hin.
  apply list_elem_of_fmap in Hin as (q & Hq & Hqin).
  apply list_elem_of_filter in Hqin as [Hqk Hqin].
  assert (Hp : p ∈ in_sector k points) by (rewrite Hk; left).
  apply list_elem_of_filter in Hp as [Hpk Hpin].
  exists p, q. repeat split; try done.
  rewrite <- Hq. apply Hge. left.
Qed.

(** In a list ordered by timestamp and by sector, a sample of an earlier
    sector is not later than a sample of a later sector. *)
Lemma sectors_apart points p q :
  timestamp_ordered points -> sector_ordered points ->
  p ∈ points -> q ∈ points -> (sector p < sector q)%Z ->
  timestamp p <= timestamp q.
Proof.
  intros Ht Hs.
  apply Sorted_StronglySorted in Ht; [|apply timestamp_le_trans].
  apply Sorted_StronglySorted in Hs; [|apply sector_le_trans].
  induction points as [|x l IH]; intros Hp Hq Hlt; [by apply elem_of_nil in Hp|].
  apply StronglySorted_cons in Ht as [Htx Ht], Hs as [Hsx Hs].
  rewrite Forall_forall in Htx, Hsx.
  apply elem_of_cons in Hp as [->|Hp]; apply elem_of_cons in Hq as [->|Hq].
  - lia.
  - by apply Htx.
  - pose proof (Hsx p Hp). lia.
  - by apply IH.
Qed.

Lemma within_lap points first lst p :
  timestamp_ordered points ->
  head points = Some first -> last points = Some lst -> p ∈ points ->
  timestamp first <= timestamp p <= timestamp lst.
Proof.
  intros Ht Hfirst Hlast Hp.
  apply Sorted_StronglySorted in Ht; [|apply timestamp_le_trans].
  split.
  - destruct points as [|x l]; [done|]. injection Hfirst as ->.
    apply StronglySorted_cons in Ht as [Htx _]. rewrite Forall_forall in Htx.
    apply elem_of_cons in Hp as [->|Hp]; [apply Qle_refl|by apply Htx].
  - clear Hfirst. revert p Hp.
    induction points as [|x l IH]; intros p Hp; [done|].
    apply StronglySorted_cons in Ht as [Htx Ht]. rewrite Forall_forall in Htx.
    destruct l as [|y l'].
    + injection Hlast as ->. apply list_elem_of_singleton in Hp as ->.
      apply Qle_refl.
    + change (last (x :: y :: l')) with (last (y :: l')) in Hlast.
      apply elem_of_cons in Hp as [->|Hp]; [|by apply IH].
      eapply Qle_trans; [apply (Htx y); left|].
      apply IH; [done..|left].
Qed.

(** X17. For samples ordered by timestamp whose sector number never
    decreases along the list, the spans of [sectorInfo] come one after the
    other without overlap: every span starts no earlier than the first
    sample, ends no later than the last one and does not end before it
    starts, and the span of a sector ends no later than the span of any
    higher-numbered sector starts. *)
Theorem sector_spans_in_order (points : list TelemetryDataPoint)
    (first lst : TelemetryDataPoint) :
  timestamp_ordered points -> sector_ordered points ->
  head points = Some first -> last points = Some lst ->
  (forall k info, sectorInfo points !! k = Some info ->
     timestamp first <= start info /\ start info <= end_ info /\
     end_ info <= timestamp lst) /\
  (forall k k' info info', (k < k')%Z ->
     sectorInfo points !! k = Some info -> sectorInfo points !! k' = Some info' ->
     end_ info <= start info').
Proof.
  intros Ht Hs Hfirst Hlast. split.
  - intros k info Hinfo.
    destruct (span_ends _ _ _ Hinfo) as (p & q & Hp & Hq & _ & _ & -> & -> & Hle).
    destruct (within_lap points first lst p Ht Hfirst Hlast Hp) as [Hlo _].
    destruct (within_lap points first lst q Ht Hfirst Hlast Hq) as [_ Hhi].
    done.
  - intros k k' info info' Hlt Hinfo Hinfo'.
    destruct (span_ends _ _ _ Hinfo) as (p & q & _ & Hq & _ & Hqk & _ & -> & _).
    destruct (span_ends _ _ _ Hinfo') as (p' & q' & Hp' & _ & Hpk' & _ & -> & _ & _).
    apply (sectors_apart points); [done..|lia].
Qed.

Lemma short_lap_sector_ordered : sector_ordered short_lap.
Proof.
  unfold sector_ordered, short_lap. repeat (constructor; try (simpl; lia)).
Qed.

Lemma sector_spans_in_order_witness :
  (forall k info, sectorInfo short_lap !! k = Some info ->
     timestamp (pt 1 0) <= start info /\ start info <= end_ info /\
     end_ info <= timestamp (pt 2 29.2)) /\
  (forall k k' info info', (k < k')%Z ->
     sectorInfo short_lap !! k = Some info ->
     sectorInfo short_lap !! k' = Some info' ->
     end_ info <= start info').
Proof.
  apply (sector_spans_in_order short_lap (pt 1 0) (pt 2 29.2)).
  - exact short_lap_ordered.
  - exact short_lap_sector_ordered.
  - reflexivity.
  - reflexivity.
Defined.

(** Between the two sectors of [short_lap] lies a gap that belongs to
    neither span. *)
Example short_lap_spans :
  sectorInfo short_lap !! 1%Z = Some (mkSpan 0 29.145) /\
  sectorInfo short_lap !! 2%Z = Some (mkSpan 29.2 29.2).
Proof. vm_compute. split; reflexivity. Qed.

End ChartsFacts.

(** * Properties of [formatLapTime] *)

Module Web3Facts.
Import Web3.

Lemma length_app_string s t :
  String.length (s +:+ t) = (String.length s + String.length t)%nat.
Proof.
  induction s as [|c s IH]; [done|].
  change (String c s +:+ t) with (String c (s +:+ t)).
  cbn [String.length]. by rewrite IH.
Qed.

Lemma app_cons c s t : String c s +:+ t = String c (s +:+ t).
Proof. reflexivity. Qed.

Lemma app_nil_l s : "" +:+ s = s.
Proof. reflexivity. Qed.

(** Two concatenations with tails of the same length agree part by part. *)
Lemma app_inj_tail s1 s2 t1 t2 :
  String.length t1 = String.length t2 ->
  s1 +:+ t1 = s2 +:+ t2 -> s1 = s2 /\ t1 = t2.
Proof.
  revert s2. induction s1 as [|c s1 IH]; intros [|d s2] Hlen Heq.
  - done.
  - exfalso. apply (f_equal String.length) in Heq.
    rewrite app_nil_l, length_app_string in Heq. cbn [String.length] in Heq. lia.
  - exfalso. apply (f_equal String.length) in Heq.
    rewrite app_nil_l, length_app_string in Heq. cbn [String.length] in Heq. lia.
  - rewrite !app_cons in Heq. injection Heq as -> Heq.
    destruct (IH s2 Hlen Heq) as [-> ->]. done.
Qed.

Lemma app_inj_head s1 s2 t1 t2 :
  String.length s1 = String.length s2 ->
  s1 +:+ t1 = s2 +:+ t2 -> s1 = s2 /\ t1 = t2.
Proof.
  intros Hlen Heq. apply app_inj_tail; [|done].
  apply (f_equal String.length) in Heq. rewrite !length_app_string in Heq. lia.
Qed.

Lemma field_ok_spec w x :
  field_ok w x = true ->
  String.length (padStart w "0"%char (Number_toString x)) = w /\
  decimal (padStart w "0"%char (Number_toString x)) = Some x.
Proof.
  unfold field_ok. intros [Hlen Hdec]%andb_true_iff.
  split; [by apply Nat.eqb_eq|by apply bool_decide_eq_true in Hdec].
Qed.

Lemma seconds_field x : 0 <= x < 60 -> field_ok 2 x = true.
Proof.
  assert (H : Forall (fun x => field_ok 2 x = true) (seqZ 0 60)).
  { apply (bool_decide_unpack _). vm_compute. exact I. }
  intros Hx. by apply (proj1 (Forall_seqZ _ 0 60) H).
Qed.

Lemma millis_field x : 0 <= x < 1000 -> field_ok 3 x = true.
Proof.
  assert (H : Forall (fun x => field_ok 3 x = true) (seqZ 0 1000)).
  { apply (bool_decide_unpack _). vm_compute. exact I. }
  intros Hx. by apply (proj1 (Forall_seqZ _ 0 1000) H).
Qed.

Lemma formatLapTime_fields ms :
  0 <= ms ->
  formatLapTime ms =
    Number_toString (ms / 60000) +:+ ":"
      +:+ padStart 2 "0"%char (Number_toString (ms mod 60000 / 1000))
      +:+ "." +:+ padStart 3 "0"%char (Number_toString (ms mod 1000)) /\
  field_ok 2 (ms mod 60000 / 1000) = true /\
  field_ok 3 (ms mod 1000) = true.
Proof.
  intros Hms. unfold formatLapTime.
  rewrite !Z.rem_mod_nonneg by lia. split; [done|].
  pose proof (Z.mod_pos_bound ms 60000 ltac:(lia)).
  pose proof (Z.mod_pos_bound ms 1000 ltac:(lia)).
  split.
  - apply seconds_field. split; [apply Z.div_pos; lia|].
    apply Z.div_lt_upper_bound; lia.
  - by apply millis_field.
Qed.

(** X14. For a whole number of milliseconds from 0 to
    [Number.MAX_SAFE_INTEGER], [formatLapTime] writes the minutes in
    decimal, a colon, the seconds as exactly two digits, a dot and the
    milliseconds as exactly three digits, the two fields reading back as
    the seconds (0 to 59) and milliseconds (0 to 999) of the input; hence
    two different lap times are never displayed alike. *)
Theorem formatLapTime_readable (a b : Z) :
  safe_ms a -> safe_ms b ->
  (exists ss mmm,
     formatLapTime a = Number_toString (a / 60000) +:+ ":" +:+ ss +:+ "." +:+ mmm /\
     String.length ss = 2%nat /\ String.length mmm = 3%nat /\
     decimal ss = Some (a mod 60000 / 1000) /\
     decimal mmm = Some (a mod 1000)) /\
  (formatLapTime a = formatLapTime b -> a = b).
Proof.
  intros [Ha _] [Hb _].
  destruct (formatLapTime_fields a Ha) as (Hfa & Hsa & Hma).
  destruct (formatLapTime_fields b Hb) as (Hfb & Hsb & Hmb).
  apply field_ok_spec in Hsa as [Hsa_len Hsa_dec], Hma as [Hma_len Hma_dec].
  apply field_ok_spec in Hsb as [Hsb_len Hsb_dec], Hmb as [Hmb_len Hmb_dec].
  split.
  - eexists _, _. split; [exact Hfa|]. done.
  - rewrite Hfa, Hfb. intros Heq.
    apply app_inj_tail in Heq as [Hmin Heq].
    2:{ rewrite !length_app_string. cbn [String.length]. lia. }
    apply (inj pretty) in Hmin.
    rewrite !app_cons, !app_nil_l in Heq. injection Heq as Heq.
    apply app_inj_head in Heq as [Hsec Heq]; [|lia].
    injection Heq as Hmil.
    assert (Hs : a mod 60000 / 1000 = b mod 60000 / 1000).
    { rewrite Hsec in Hsa_dec. congruence. }
    assert (Hm : a mod 1000 = b mod 1000).
    { rewrite Hmil in Hma_dec. congruence. }
    assert (Hsplit : forall x, x = 60000 * (x / 60000)
                                  + 1000 * (x mod 60000 / 1000) + x mod 1000).
    { intros x. pose proof (Z.div_mod x 60000 ltac:(lia)).
      pose proof (Z.div_mod (x mod 60000) 1000 ltac:(lia)).
      assert (x mod 1000 = (x mod 60000) mod 1000) as ->; [|lia].
      symmetry. apply Z.mod_mod_divide. by exists 60. }
    rewrite (Hsplit a), (Hsplit b). congruence.
Qed.

Lemma formatLapTime_readable_witness :
  safe_ms 88456 /\ safe_ms 88234 /\
  (exists ss mmm,
     formatLapTime 88456
     = Number_toString (88456 / 60000) +:+ ":" +:+ ss +:+ "." +:+ mmm /\
     String.length ss = 2%nat /\ String.length mmm = 3%nat /\
     decimal ss = Some (88456 mod 60000 / 1000) /\
     decimal mmm = Some (88456 mod 1000)) /\
  (formatLapTime 88456 = formatLapTime 88234 -> 88456 = 88234).
Proof.
  assert (H1 : safe_ms 88456) by (unfold safe_ms; vm_compute; split; discriminate).
  assert (H2 : safe_ms 88234) by (unfold safe_ms; vm_compute; split; discriminate).
  split; [exact H1|]. split; [exact H2|].
  apply (formatLapTime_readable 88456 88234 H1 H2).
Defined.

Example format_lap1 : formatLapTime 88456 = "1:28.456".
Proof. vm_compute. reflexivity. Qed.

Example format_short_fields : formatLapTime 61005 = "1:01.005".
Proof. vm_compute. reflexivity. Qed.

Example format_zero : formatLapTime 0 = "0:00.000".
Proof. vm_compute. reflexivity. Qed.

End Web3Facts.

(** * Properties of the sector breakdown *)

Module ComparisonFacts.
Import Comparison.
#[local] Open Scope Q_scope.

Lemma truthy_true x : truthy x = true <-> ~ x == 0.
Proof.
  unfold truthy. rewrite negb_true_iff, <- not_true_iff_false, Qeq_bool_iff. done.
Qed.

Lemma sector_row_Some st k row :
  sector_row st k = Some row <->
  exists time, st !! k = Some time /\ ~ time == 0 /\
    row = mkRow k time (m ← Math_max_spread (Object_values st);
                        Some (time / m * 100)).
Proof.
  unfold sector_row. destruct (st !! k) as [time|].
  2:{ split; [done|]. by intros (? & ? & _). }
  destruct (truthy time) eqn:E.
  - apply truthy_true in E. split.
    + intros [= <-]. by exists time.
    + by intros (t' & [= <-] & _ & ->).
  - apply not_true_iff_false in E. rewrite truthy_true in E. split; [done|].
    by intros (t' & [= <-] & Hnz & _).
Qed.

(** The greatest value of a non-empty object is one of its values. *)
Lemma Math_max_spread_greatest st k time :
  st !! k = Some time ->
  exists m k', Math_max_spread (Object_values st) = Some m /\
    st !! k' = Some m /\ forall j t, st !! j = Some t -> t <= m.
Proof.
  intros Hk. unfold Object_values.
  assert (Hin : forall j t, st !! j = Some t -> t ∈ snd <$> map_to_list st).
  { intros j t Hj. apply list_elem_of_fmap. exists (j, t).
    split; [done|]. by apply elem_of_map_to_list. }
  destruct (snd <$> map_to_list st) as [|v vs] eqn:Hvs.
  { apply Hin in Hk. by apply elem_of_nil in Hk. }
  destruct (ChartsFacts.max_timestamp_greatest v vs) as [Hmem Hge].
  unfold Charts.max_timestamp in *. simpl.
  rewrite <- Hvs in Hmem.
  apply list_elem_of_fmap in Hmem as ([k' m] & Hm & Hkm). simpl in Hm.
  apply elem_of_map_to_list in Hkm.
  eexists _, k'. split; [done|]. split; [by rewrite Hm|].
  intros j t Hj. by apply Hge, Hin with j.
Qed.

(** X15. When no sector time is negative, the sector breakdown of
    [LapTimeComparison] has a row exactly for the sectors among 1, 2, 3
    whose time is present and not zero - a sector of duration 0 is left
    out - and every row's bar is more than 0% and at most 100% wide, the
    bar of a sector that no other entry exceeds being 100%. *)
Theorem sector_breakdown_bars (st : gmap Z Q) :
  (forall k t, st !! k = Some t -> 0 <= t) ->
  (forall row, row ∈ sector_breakdown st ->
     row_sector row ∈ [1%Z; 2%Z; 3%Z] /\
     st !! row_sector row = Some (row_time row) /\ 0 < row_time row /\
     exists w, row_width row = Some w /\ 0 < w /\ w <= 100 /\
       ((forall k t, st !! k = Some t -> t <= row_time row) -> w == 100)) /\
  (forall k t, k ∈ [1%Z; 2%Z; 3%Z] -> st !! k = Some t -> 0 < t ->
     exists row, row ∈ sector_breakdown st /\ row_sector row = k /\ row_time row = t) /\
  (forall k, k ∈ [1%Z; 2%Z; 3%Z] ->
     (st !! k = None \/ exists t, st !! k = Some t /\ t == 0) ->
     forall row, row ∈ sector_breakdown st -> row_sector row <> k).
Proof.
  intros Hpos. unfold sector_breakdown. split; [|split].
  - intros row (k & Hk & Hrow)%list_elem_of_omap.
    apply sector_row_Some in Hrow as (time & Hst & Hnz & ->). simpl.
    split; [done|]. split; [done|].
    assert (Htime : 0 < time).
    { pose proof (Hpos k time Hst) as Hge.
      apply Qle_lteq in Hge as [?|Heq]; [done|]. by destruct Hnz. }
    split; [done|].
    destruct (Math_max_spread_greatest st k time Hst) as (m & k' & -> & Hm & Hge).
    simpl. eexists. split; [done|].
    pose proof (Hge k time Hst) as Hle.
    assert (Hmpos : 0 < m) by (eapply Qlt_le_trans; eauto).
    assert (Hq : 0 < time / m) by (apply Qlt_shift_div_l; [done|]; lra).
    assert (Hq1 : time / m <= 1) by (apply Qle_shift_div_r; [done|]; lra).
    split; [lra|]. split; [lra|].
    intros Hmax. pose proof (Hmax k' m Hm) as Hle'.
    assert (Heq : time == m) by (by apply Qle_antisym).
    rewrite Heq. field. intros H0. rewrite H0 in Hmpos. by apply Qlt_irrefl in Hmpos.
  - intros k t Hk Hst Ht.
    eexists. split; [|split].
    + apply list_elem_of_omap. exists k. split; [done|].
      apply sector_row_Some. exists t. split; [done|]. split; [|done].
      intros H0. rewrite H0 in Ht. by apply Qlt_irrefl in Ht.
    + done.
    + done.
  - intros k Hk Hnone row (k' & _ & Hrow)%list_elem_of_omap.
    apply sector_row_Some in Hrow as (time & Hst & Hnz & ->). simpl.
    intros ->. destruct Hnone as [Hnone|(t & Ht & H0)]; [congruence|].
    rewrite Hst in Ht. injection Ht as ->. done.
Qed.

Lemma sample_sector_times_nonneg :
  forall k t, sample_sector_times !! k = Some t -> 0 <= t.
Proof.
  intros k t. unfold sample_sector_times.
  rewrite !lookup_insert_Some, lookup_empty.
  intros [[_ <-]|[_ [[_ <-]|[_ [[_ <-]|[_ ?]]]]]]; done.
Qed.

Lemma sector_breakdown_bars_witness :
  (forall row, row ∈ sector_breakdown sample_sector_times ->
     row_sector row ∈ [1%Z; 2%Z; 3%Z] /\
     sample_sector_times !! row_sector row = Some (row_time row) /\
     0 < row_time row /\
     exists w, row_width row = Some w /\ 0 < w /\ w <= 100 /\
       ((forall k t, sample_sector_times !! k = Some t -> t <= row_time row) ->
        w == 100)) /\
  (forall k t, k ∈ [1%Z; 2%Z; 3%Z] -> sample_sector_times !! k = Some t -> 0 < t ->
     exists row, row ∈ sector_breakdown sample_sector_times /\
       row_sector row = k /\ row_time row = t) /\
  (forall k, k ∈ [1%Z; 2%Z; 3%Z] ->
     (sample_sector_times !! k = None \/
      exists t, sample_sector_times !! k = Some t /\ t == 0) ->
     forall row, row ∈ sector_breakdown sample_sector_times -> row_sector row <> k).
Proof.
  apply (sector_breakdown_bars sample_sector_times).
  exact sample_sector_times_nonneg.
Defined.

Example breakdown_sample :
  row_sector <$> sector_breakdown sample_sector_times = [1%Z; 2%Z].
Proof. vm_compute. reflexivity. Qed.

End ComparisonFacts.

(** * Properties of [AIInsights] *)

Module InsightsFacts.
Import Insights.
#[local] Open Scope Q_scope.

Lemma gt_true x y : gt x y = true <-> y < x.
Proof.
  unfold gt. rewrite negb_true_iff, <- not_true_iff_false, Qle_bool_iff.
  split; [apply Qnot_le_lt|apply Qlt_not_le].
Qed.

Lemma gt_false x y : gt x y = false <-> x <= y.
Proof. unfold gt. by rewrite negb_false_iff, Qle_bool_iff. Qed.

Lemma lt_true x y : lt x y = true <-> x < y.
Proof. apply gt_true. Qed.

Lemma lt_false x y : lt x y = false <-> y <= x.
Proof. apply gt_false. Qed.

Lemma truthy_Some o v : truthy o = Some v <-> o = Some v /\ ~ v == 0.
Proof.
  unfold truthy. destruct o as [x|]; [|by split; [|intros [? _]]].
  destruct (Qeq_bool x 0) eqn:E.
  - apply Qeq_bool_iff in E. split; [done|]. by intros [[= ->] ?].
  - apply Qeq_bool_neq in E. split; [by intros [= ->]|by intros [[= ->] _]].
Qed.

Lemma truthy_None o : truthy o = None <-> o = None \/ exists v, o = Some v /\ v == 0.
Proof.
  unfold truthy. destruct o as [x|]; [|by split; [left|]].
  destruct (Qeq_bool x 0) eqn:E.
  - apply Qeq_bool_iff in E. split; [right; by exists x|done].
  - apply Qeq_bool_neq in E. split; [done|].
    intros [?|(v & [= ->] & ?)]; done.
Qed.

(** The four analyses run one after the other on the same array. *)
Lemma generateInsights_parts d :
  generateInsights d =
    match speed_insight d ++ throttle_insight d ++ brake_insight d
          ++ lap_time_insight d with
    | [] => [default_insight]
    | l => l
    end.
Proof.
  unfold generateInsights, speed_insight, throttle_insight, brake_insight,
    lap_time_insight.
  destruct (truthy (speed d)) as [v|];
    [destruct (gt v 280); [|destruct (lt v 240)]|];
  (destruct (truthy (throttle d)) as [w|];
    [destruct (gt w 85); [|destruct (lt w 70)]|]);
  (destruct (truthy (brake d)) as [b|]; [destruct (gt b 90)|]);
  (destruct (truthy (lap_time d)) as [t|];
    [destruct (lt (t / 1000) 90); [|destruct (gt (t / 1000) 95)]|]);
  reflexivity.
Qed.

Lemma speed_insight_cases d :
  (speed_insight d = [] /\ quiet (Some 240) (Some 280) (speed d)) \/
  (((exists v, speed_insight d = [excellent_top_speed v]) \/
    speed_insight d = [low_top_speed]) /\
   ~ quiet (Some 240) (Some 280) (speed d)).
Proof.
  unfold speed_insight. destruct (truthy (speed d)) as [v|] eqn:E.
  - apply truthy_Some in E as [-> Hnz]. simpl quiet.
    destruct (gt v 280) eqn:G.
    { apply gt_true in G. right. split; [left; eauto|].
      intros [?|[? ?]]; [done|lra]. }
    apply gt_false in G. destruct (lt v 240) eqn:L.
    { apply lt_true in L. right. split; [by right|].
      intros [?|[? ?]]; [done|lra]. }
    apply lt_false in L. left. split; [done|]. by right.
  - left. split; [done|].
    apply truthy_None in E as [->|(v & -> & H0)]; [done|by left].
Qed.

Lemma throttle_insight_cases d :
  (throttle_insight d = [] /\ quiet (Some 70) (Some 85) (throttle d)) \/
  ((throttle_insight d = [aggressive_throttle] \/
    throttle_insight d = [throttle_optimization]) /\
   ~ quiet (Some 70) (Some 85) (throttle d)).
Proof.
  unfold throttle_insight. destruct (truthy (throttle d)) as [v|] eqn:E.
  - apply truthy_Some in E as [-> Hnz]. simpl quiet.
    destruct (gt v 85) eqn:G.
    { apply gt_true in G. right. split; [by left|].
      intros [?|[? ?]]; [done|lra]. }
    apply gt_false in G. destruct (lt v 70) eqn:L.
    { apply lt_true in L. right. split; [by right|].
      intros [?|[? ?]]; [done|lra]. }
    apply lt_false in L. left. split; [done|]. by right.
  - left. split; [done|].
    apply truthy_None in E as [->|(v & -> & H0)]; [done|by left].
Qed.

Lemma brake_insight_cases d :
  (brake_insight d = [] /\ quiet None (Some 90) (brake d)) \/
  (brake_insight d = [heavy_braking] /\ ~ quiet None (Some 90) (brake d)).
Proof.
  unfold brake_insight. destruct (truthy (brake d)) as [v|] eqn:E.
  - apply truthy_Some in E as [-> Hnz]. simpl quiet.
    destruct (gt v 90) eqn:G.
    { apply gt_true in G. right. split; [done|].
      intros [?|[_ ?]]; [done|lra]. }
    apply gt_false in G. left. split; [done|]. by right.
  - left. split; [done|].
    apply truthy_None in E as [->|(v & -> & H0)]; [done|by left].
Qed.

Lemma lap_time_insight_cases d :
  (lap_time_insight d = [] /\ quiet (Some 90000) (Some 95000) (lap_time d)) \/
  (((exists t, lap_time_insight d = [competitive_lap_time t]) \/
    lap_time_insight d = [lap_time_opportunity]) /\
   ~ quiet (Some 90000) (Some 95000) (lap_time d)).
Proof.
  unfold lap_time_insight. destruct (truthy (lap_time d)) as [t|] eqn:E.
  - apply truthy_Some in E as [-> Hnz]. simpl quiet.
    assert (Hdiv : t / 1000 == t * (1 # 1000)) by (by unfold Qdiv).
    destruct (lt (t / 1000) 90) eqn:L.
    { apply lt_true in L. rewrite Hdiv in L. right. split; [left; eauto|].
      intros [?|[? ?]]; [done|lra]. }
    apply lt_false in L. rewrite Hdiv in L.
    destruct (gt (t / 1000) 95) eqn:G.
    { apply gt_true in G. rewrite Hdiv in G. right. split; [by right|].
      intros [?|[? ?]]; [done|lra]. }
    apply gt_false in G. rewrite Hdiv in G. left. split; [done|].
    right. split; lra.
  - left. split; [done|].
    apply truthy_None in E as [->|(v & -> & H0)]; [done|by left].
Qed.

Ltac insight_names :=
  cbv [default_insight excellent_top_speed low_top_speed aggressive_throttle
       throttle_optimization heavy_braking competitive_lap_time
       lap_time_opportunity] in *.

(** X16. [generateInsights] never returns an empty list and never more
    than four insights, no two with the same title.  The default insight
    "Data Collection Active" is returned exactly when no analysis fired,
    and then alone: that is, exactly when every metric is absent, zero or
    inside its band (speed 240 to 280, throttle 70 to 85, brake at most 90,
    lap time 90000 to 95000 ms) - also for a lap that has all its data. *)
Theorem generateInsights_never_empty (d : LapData) :
  (1 <= length (generateInsights d) <= 4)%nat /\
  NoDup (title <$> generateInsights d) /\
  (default_insight ∈ generateInsights d <-> generateInsights d = [default_insight]) /\
  (generateInsights d = [default_insight] <-> quiet_lap d).
Proof.
  rewrite generateInsights_parts. unfold quiet_lap.
  destruct (speed_insight_cases d) as [[-> Hs]|[[[v ->]| ->] Hs]];
  destruct (throttle_insight_cases d) as [[-> Ht]|[[->| ->] Ht]];
  destruct (brake_insight_cases d) as [[-> Hb]|[-> Hb]];
  destruct (lap_time_insight_cases d) as [[-> Hl]|[[[t ->]| ->] Hl]];
  cbn [app];
  (split; [simpl; lia|]);
  (split; [apply (bool_decide_unpack _); vm_compute; exact I|]);
  (split;
    [ first
        [ by split; [|intros _; left]
        | split;
          [ intros Hin; exfalso; insight_names;
            repeat (apply elem_of_cons in Hin as [Hin|Hin]; [discriminate Hin|]);
            by apply elem_of_nil in Hin
          | intros Heq; exfalso; insight_names; discriminate Heq ] ]
    | first
        [ by split
        | split;
          [ intros Heq; exfalso; insight_names; discriminate Heq
          | intros (? & ? & ? & ?); done ] ] ]).
Qed.
Example insights_midfield_lap : generateInsights midfield_lap = [default_insight].
Proof. vm_compute. reflexivity. Qed.

Example insights_quick_lap :
  title <$> generateInsights quick_lap
  = ["Excellent Top Speed"; "Aggressive Throttle Application";
     "Heavy Braking Detected"; "Competitive Lap Time"].
Proof. vm_compute. reflexivity. Qed.

End InsightsFacts.

(** * Properties of the analysis engine *)

Module CoreFacts.
Import Telemetry Core.
#[local] Open Scope Q_scope.

Lemma Qlt_bool_iff a b : Qlt_bool a b = true <-> a < b.
Proof.
  unfold Qlt_bool. rewrite negb_true_iff. split.
  - intros H. apply Qnot_le_lt. intros Hle. apply Qle_bool_iff in Hle. congruence.
  - intros H. destruct (Qle_bool b a) eqn:E; [|done].
    apply Qle_bool_iff in E. by apply Qlt_not_le in H.
Qed.

Lemma Qlt_bool_false a b : Qlt_bool a b = false <-> b <= a.
Proof.
  unfold Qlt_bool. rewrite negb_false_iff. apply Qle_bool_iff.
Qed.

(** Case analysis on a threshold test, leaving the order fact behind. *)
Ltac case_lt a b :=
  let E := fresh "E" in
  destruct (Qlt_bool a b) eqn:E;
  [apply Qlt_bool_iff in E | apply Qlt_bool_false in E].

Lemma clamp_bounds lo hi x : lo <= hi -> lo <= clamp lo hi x <= hi.
Proof.
  intros H. unfold clamp. case_lt x lo; [lra|]. case_lt hi x; lra.
Qed.

Lemma clamp_mono lo hi x y :
  lo <= hi -> x <= y -> clamp lo hi x <= clamp lo hi y.
Proof.
  intros H Hxy. unfold clamp.
  case_lt x lo; case_lt y lo; try case_lt hi x; try case_lt hi y; lra.
Qed.

Lemma clamp_Qeq lo hi x y :
  lo <= hi -> x == y -> clamp lo hi x == clamp lo hi y.
Proof.
  intros H Hxy. apply Qle_antisym; apply clamp_mono; (done || lra).
Qed.

Lemma fold_penalise mistakes score :
  fold_left penalise mistakes score == score - total_penalty mistakes.
Proof.
  revert score. induction mistakes as [|m mistakes IH]; intros score; simpl.
  - lra.
  - rewrite IH. unfold penalise. lra.
Qed.

Lemma severity_penalty_pos s : 0 < severity_penalty s.
Proof. destruct s; simpl; lra. Qed.

Lemma total_penalty_nonneg mistakes : 0 <= total_penalty mistakes.
Proof.
  induction mistakes as [|m mistakes IH]; simpl; [lra|].
  pose proof (severity_penalty_pos (severity m)). lra.
Qed.

Lemma total_penalty_app ms extra :
  total_penalty (ms ++ extra) == total_penalty ms + total_penalty extra.
Proof. induction ms as [|m ms IH]; simpl; [lra|]. rewrite IH. lra. Qed.

Lemma base_score_antitone actual actual' predicted :
  0 < predicted ->
  Qabs (actual - predicted) <= Qabs (actual' - predicted) ->
  base_score actual' predicted <= base_score actual predicted.
Proof.
  intros Hp Hd. unfold base_score, Qdiv.
  assert (Hinv : 0 <= / predicted) by (apply Qinv_le_0_compat; lra).
  pose proof (Qmult_le_compat_r _ _ _ Hd Hinv) as Hq.
  lra.
Qed.

(** C1. For positive lap times and any mistake list the scorer returns
    clamp(100 - (|actual - predicted| / predicted x 100) x 20 - sum over the
    mistakes of (5 + severity bonus), 0, 100), with bonus 1 for low, 3 for
    medium and 6 for high; the score always lies in [0, 100]. *)
Theorem performance_score_formula (actual predicted : Q) (mistakes : list Mistake) :
  0 < actual -> 0 < predicted ->
  performance_score actual predicted mistakes
    == clamp 0 100
         (100 - (Qabs (actual - predicted) / predicted * 100) * 20
          - total_penalty mistakes) /\
  0 <= performance_score actual predicted mistakes <= 100 /\
  severity_penalty low == 1 /\ severity_penalty medium == 3 /\
  severity_penalty high == 6.
Proof.
  intros _ _. split; [|split].
  - unfold performance_score. apply clamp_Qeq; [lra|].
    rewrite fold_penalise. unfold base_score. lra.
  - apply clamp_bounds. lra.
  - by simpl.
Qed.

(** C2. The scorer is monotonically non-increasing in both penalties:
    appending one more mistake (or any number of them) never raises the
    score, and for a fixed mistake list and predicted time a larger
    |actual - predicted| never raises it. *)
Theorem performance_score_monotone (actual predicted : Q) (mistakes : list Mistake) :
  0 < predicted ->
  (forall m, performance_score actual predicted (mistakes ++ [m])
             <= performance_score actual predicted mistakes) /\
  (forall extra, performance_score actual predicted (mistakes ++ extra)
                 <= performance_score actual predicted mistakes) /\
  (forall actual', Qabs (actual - predicted) <= Qabs (actual' - predicted) ->
     performance_score actual' predicted mistakes
     <= performance_score actual predicted mistakes).
Proof.
  intros Hp.
  assert (Hextra : forall extra,
            performance_score actual predicted (mistakes ++ extra)
            <= performance_score actual predicted mistakes).
  { intros extra. unfold performance_score. apply clamp_mono; [lra|].
    rewrite !fold_penalise, total_penalty_app.
    pose proof (total_penalty_nonneg extra). lra. }
  split; [intros m; apply Hextra|]. split; [exact Hextra|].
  intros actual' Hd. unfold performance_score. apply clamp_mono; [lra|].
  rewrite !fold_penalise.
  pose proof (base_score_antitone actual actual' predicted Hp Hd). lra.
Qed.

(** **** Orchestrator and boundary *)

Lemma predict_Failed eng compound wear temp avg e :
  predict eng compound wear temp avg = Failed e ->
  exists field, e = InvalidParameter field.
Proof.
  unfold predict, validate.
  destruct (parse_compound compound); simpl; [|intros [= <-]; by eexists].
  destruct (negb _); simpl; [intros [= <-]; by eexists|].
  destruct (negb _); simpl; [intros [= <-]; by eexists|done].
Qed.

Lemma no_lap_time samples :
  head (omap lap_time samples) = None <-> Forall (fun p => lap_time p = None) samples.
Proof.
  induction samples as [|p samples IH]; simpl.
  - split; [constructor|done].
  - destruct (lap_time p) as [t|] eqn:Hp; simpl.
    + split; [done|]. intros H. apply Forall_cons_1 in H as [H _]. congruence.
    + rewrite IH. split; [by constructor|]. by intros [_ H]%Forall_cons_1.
Qed.

Lemma resolve_lap_time_None samples supplied :
  resolve_lap_time samples supplied = None <->
  supplied = None /\ Forall (fun p => lap_time p = None) samples.
Proof.
  unfold resolve_lap_time. destruct supplied as [t|].
  - split; [done|]. by intros [? _].
  - rewrite no_lap_time. tauto.
Qed.

(** The errors [analyze] itself can raise, and when. *)
Lemma analyze_Failed eng now lap samples supplied e :
  analyze eng now lap samples supplied = Failed e ->
  (e = EmptyLapData /\ samples = []) \/
  (e = MissingLapTime /\ samples <> [] /\ resolve_lap_time samples supplied = None) \/
  (exists field, e = InvalidParameter field /\ samples <> [] /\
     resolve_lap_time samples supplied <> None).
Proof.
  unfold analyze. destruct samples as [|first rest]; [intros [= <-]; by left|].
  destruct (resolve_lap_time (first :: rest) supplied) as [actual|] eqn:Hr.
  - destruct (predict _ _ _ _ _) as [p|e'] eqn:Hp; simpl; [done|].
    intros [= <-]. destruct (predict_Failed _ _ _ _ _ _ Hp) as [field ->].
    right; right. exists field. done.
  - intros [= <-]. right; left. done.
Qed.

(** C6. [analyze] fails with [EmptyLapData] exactly when the sample list
    is empty, and with [MissingLapTime] exactly when samples exist but no
    lap time comes from the caller or from a sample; the boundary answers
    [LapNotFound] exactly when the lap number has no stored samples at all,
    and [EmptyLapData] for a known lap with zero rows.  [LapNotFound] is
    surfaced as 404, [MissingLapTime] as 400, [EmptyLapData] as neither. *)
Theorem analyze_data_errors (eng : Engine) (now lap : Z)
    (samples : list TelemetryDataPoint) (supplied : option Q)
    (store : gmap Z (list TelemetryDataPoint)) :
  (analyze eng now lap samples supplied = Failed EmptyLapData <->
     samples = []) /\
  (analyze eng now lap samples supplied = Failed MissingLapTime <->
     samples <> [] /\ supplied = None /\
     Forall (fun p => lap_time p = None) samples) /\
  (analyze_lap eng now store lap supplied = Failed LapNotFound <->
     store !! lap = None) /\
  (store !! lap = Some [] ->
     analyze_lap eng now store lap supplied = Failed EmptyLapData) /\
  error_class LapNotFound = NotFound404 /\
  error_class MissingLapTime = BadRequest400 /\
  error_class EmptyLapData = DataError.
Proof.
  split; [|split; [|split; [|split]]].
  - split; [|by intros ->].
    intros H. apply analyze_Failed in H as [[_ ?]|[[? _]|(? & ? & _)]]; done.
  - rewrite <- resolve_lap_time_None. split.
    + intros H. apply analyze_Failed in H as [[? _]|[[_ ?]|(? & ? & _)]]; done.
    + intros [Hne Hr]. unfold analyze.
      destruct samples; [done|]. by rewrite Hr.
  - unfold analyze_lap, fetch_samples. destruct (store !! lap) as [l|]; simpl.
    + split; [|done].
      intros H. apply analyze_Failed in H as [[? _]|[[? _]|(? & ? & _)]]; done.
    + done.
  - intros Hs. unfold analyze_lap, fetch_samples. by rewrite Hs.
  - done.
Qed.

(** **** Sample runs *)

Lemma performance_score_formula_witness :
  performance_score 89.234 88.456 sample_mistakes
    == clamp 0 100
         (100 - (Qabs (89.234 - 88.456) / 88.456 * 100) * 20
          - total_penalty sample_mistakes) /\
  0 <= performance_score 89.234 88.456 sample_mistakes <= 100 /\
  severity_penalty low == 1 /\ severity_penalty medium == 3 /\
  severity_penalty high == 6.
Proof.
  apply (performance_score_formula 89.234 88.456 sample_mistakes); reflexivity.
Defined.

Lemma performance_score_monotone_witness :
  (forall m, performance_score 89.234 88.456 (sample_mistakes ++ [m])
             <= performance_score 89.234 88.456 sample_mistakes) /\
  (forall extra, performance_score 89.234 88.456 (sample_mistakes ++ extra)
                 <= performance_score 89.234 88.456 sample_mistakes) /\
  (forall actual', Qabs (89.234 - 88.456) <= Qabs (actual' - 88.456) ->
     performance_score actual' 88.456 sample_mistakes
     <= performance_score 89.234 88.456 sample_mistakes).
Proof.
  apply (performance_score_monotone 89.234 88.456 sample_mistakes); reflexivity.
Defined.

Example sample_score :
  Qred (performance_score 89.234 88.456 sample_mistakes)
  = Qred (100 - 1556 / 88.456 - 16).
Proof. vm_compute. reflexivity. Qed.

Example score_floor :
  performance_score 120 88.456 sample_mistakes = 0.
Proof. vm_compute. reflexivity. Qed.

Example score_ceiling :
  Qred (performance_score 88.456 88.456 []) = 100.
Proof. vm_compute. reflexivity. Qed.

(** Scenarios C and D. *)
Example analyze_scenario_C :
  analyze sample_engine 0 12 [] (Some 89.234) = Failed EmptyLapData.
Proof. reflexivity. Qed.

Example analyze_scenario_D :
  analyze sample_engine 0 12 untimed_lap None = Failed MissingLapTime.
Proof. reflexivity. Qed.

Example analyze_lap_unknown :
  analyze_lap sample_engine 0 sample_store 14 None = Failed LapNotFound.
Proof. reflexivity. Qed.

Example analyze_lap_zero_rows :
  analyze_lap sample_engine 0 sample_store 13 None = Failed EmptyLapData.
Proof. reflexivity. Qed.

Example analyze_sample_lap :
  exists a, analyze_lap sample_engine 1700000000 sample_store 12 None = Done a /\
    Qred (delta a) = Qred 0.778 /\
    (fun kd => (kd.1, Qred kd.2)) <$> la_sector_times a
      = [(1%Z, 0); (2%Z, 1); (3%Z, 29)] /\
    Qred (la_performance_score a) = Qred (100 - 1556 / 88.456 - 16) /\
    created_at a = 1700000000%Z.
Proof. eexists. split; [reflexivity|]. vm_compute. done. Qed.

End CoreFacts.
